(** * Address line splitter: a shallow embedding of
    [address-string-to-line-convertor.py] and the properties of its core
    function [split_address_equally].

    Python strings are modelled as lists of Unicode code points, Python
    exceptions by an error monad, the [lines] list by a list updated by
    index, and the returned dictionary by a finite map with string keys. *)

From Stdlib Require Import ZArith NArith Ascii String.
From stdpp Require Import base option list gmap strings.

Local Open Scope nat_scope.

(** ** Python values *)

(** A [str] is a sequence of code points. *)
Abbreviation char := N (only parsing).
Abbreviation str := (list N) (only parsing).

(** An ASCII literal of the source, as a [str]. *)
Definition py (s : string) : str :=
  N_of_ascii <$> list_ascii_of_string s.

Module Py.

(** The exceptions the modelled operations can raise. *)
Inductive exn : Set := IndexError | ValueError | ZeroDivisionError.

Inductive result (A : Type) : Type :=
| Ok (a : A)
| Raise (e : exn).
Global Arguments Ok {A} a.
Global Arguments Raise {A} e.

Global Instance result_ret : MRet result := λ A a, Ok a.
Global Instance result_bind : MBind result := λ A B f m,
  match m with
  | Ok a => f a
  | Raise e => Raise e
  end.

Global Instance result_fmap : FMap result := λ A B f m,
  match m with
  | Ok a => Ok (f a)
  | Raise e => Raise e
  end.

(** [l[i]] for a non-negative index. *)
Definition getitem {A} (l : list A) (i : nat) : result A :=
  match l !! i with
  | Some x => Ok x
  | None => Raise IndexError
  end.

(** [l[i] = x] for a non-negative index. *)
Definition setitem {A} (l : list A) (i : nat) (x : A) : result (list A) :=
  if decide (i < length l) then Ok (<[i:=x]> l) else Raise IndexError.

(** [l.index(x)]: the position of the first element equal to [x]. *)
Fixpoint index `{EqDecision A} (l : list A) (x : A) : result nat :=
  match l with
  | [] => Raise ValueError
  | y :: l' => if decide (y = x) then Ok 0 else S <$> index l' x
  end.

(** [a // b] on non-negative integers. *)
Definition floordiv (a b : nat) : result nat :=
  if decide (b = 0) then Raise ZeroDivisionError else Ok (a / b).

(** [for x in l: st = body(st, x)]. *)
Fixpoint for_each {S A} (body : S → A → result S) (st : S) (l : list A)
  : result S :=
  match l with
  | [] => Ok st
  | x :: l' => st' ← body st x; for_each body st' l'
  end.

(** Truth value of a [str]: non-empty. *)
Definition truthy {A} (s : list A) : bool :=
  match s with [] => false | _ => true end.

End Py.
Import Py.

(** ** String built-ins *)

Module PyStr.

(** [str.isspace] on one code point: the characters [str.split()] and
    [str.strip()] treat as whitespace. *)
Definition isspace (c : char) : bool :=
  (((9 <=? c) && (c <=? 13)) || ((28 <=? c) && (c <=? 32))
   || (c =? 133) || (c =? 160) || (c =? 5760)
   || ((8192 <=? c) && (c <=? 8202))
   || (c =? 8232) || (c =? 8233) || (c =? 8239) || (c =? 8287)
   || (c =? 12288))%N.

(** [s.split()]: the maximal runs of non-whitespace characters.
    [cur] is the run being read. *)
Fixpoint split_from (cur : str) (s : str) : list str :=
  match s with
  | [] => if truthy cur then [cur] else []
  | c :: s' =>
      if isspace c
      then (if truthy cur then [cur] else []) ++ split_from [] s'
      else split_from (cur ++ [c]) s'
  end.

Definition split (s : str) : list str := split_from [] s.

(** [sep.join(l)]. *)
Fixpoint join (sep : str) (l : list str) : str :=
  match l with
  | [] => []
  | [x] => x
  | x :: l' => x ++ sep ++ join sep l'
  end.

(** [s.lstrip()], [s.rstrip()] and [s.strip()]. *)
Fixpoint lstrip (s : str) : str :=
  match s with
  | [] => []
  | c :: s' => if isspace c then lstrip s' else s
  end.

Definition rstrip (s : str) : str := reverse (lstrip (reverse s)).

Definition strip (s : str) : str := rstrip (lstrip s).

(** The character class [[,;]]. *)
Definition is_delim (c : char) : bool := ((c =? 44) || (c =? 59))%N.

(** [re.split(r'[,;]', s)]: the pieces between delimiters, empty
    pieces included. *)
Fixpoint re_split_from (cur : str) (s : str) : list str :=
  match s with
  | [] => [cur]
  | c :: s' =>
      if is_delim c
      then cur :: re_split_from [] s'
      else re_split_from (cur ++ [c]) s'
  end.

Definition re_split (s : str) : list str := re_split_from [] s.

End PyStr.
Import PyStr.

(** ** The program *)

(** The dictionary literal returned by both functions. *)
Definition line_dict (l1 l2 l3 : str) : gmap string str :=
  {[ "address_line_1"%string := l1;
     "address_line_2"%string := l2;
     "address_line_3"%string := l3 ]}.

(** [parts[parts.index(part) + 1:]]. *)
Definition remaining_after (items : list str) (item : str)
  : result (list str) :=
  i ← index items item; mret (drop (i + 1) items).

(** Body of the loop of [distribute_parts]. *)
Definition part_step (parts : list str) (num_lines target_length : nat)
    (st : list str * nat * nat) (part : str)
  : result (list str * nat * nat) :=
  let '(lines, current_line, current_length) := st in
  cur ← getitem lines current_line;
  '(lines, current_length) ←
    (if truthy cur
     then lines ← setitem lines current_line (cur ++ py ", " ++ part);
          mret (lines, current_length + (length part + 2))
     else lines ← setitem lines current_line part;
          mret (lines, length part));
  if bool_decide (Z.of_nat current_line < Z.of_nat num_lines - 1)%Z then
    remaining_parts ← remaining_after parts part;
    if truthy remaining_parts && bool_decide (target_length ≤ current_length)
    then mret (lines, current_line + 1, 0)
    else mret (lines, current_line, current_length)
  else mret (lines, current_line, current_length).

(** One round of [for i in range(num_lines)] in the perfect-match branch. *)
Definition assign_step (parts : list str) (lines : list str) (i : nat)
  : result (list str) :=
  x ← (if bool_decide (i < length parts) then getitem parts i else mret []);
  setitem lines i x.

Definition distribute_parts (parts : list str) (num_lines : nat)
  : result (gmap string str) :=
  let lines : list str := [[]; []; []] in
  lines ←
    (if bool_decide (length parts = num_lines)
     then for_each (assign_step parts) lines (seq 0 num_lines)
     else
       let total_length := sum_list (length <$> parts) in
       target_length ← floordiv total_length num_lines;
       '(lines, _, _) ← for_each (part_step parts num_lines target_length)
                          (lines, 0, 0) parts;
       mret lines);
  l0 ← getitem lines 0;
  l1 ← getitem lines 1;
  l2 ← getitem lines 2;
  mret (line_dict l0 l1 l2).

(** Body of the word loop of [split_address_equally]. *)
Definition word_step (words : list str) (target_length : nat)
    (st : list str * nat) (word : str) : result (list str * nat) :=
  let '(lines, current_line) := st in
  cur ← getitem lines current_line;
  lines ←
    (if truthy cur
     then setitem lines current_line (cur ++ py " " ++ word)
     else setitem lines current_line word);
  if bool_decide (current_line < 2) then
    remaining_words ← remaining_after words word;
    let remaining_text := join (py " ") remaining_words in
    let remaining_lines := (3 - Z.of_nat current_line - 1)%Z in
    cur ← getitem lines current_line;
    if bool_decide (target_length ≤ length cur)
       && bool_decide (0 < remaining_lines)%Z
    then
      if bool_decide
           (remaining_lines * 10 ≤ Z.of_nat (length remaining_text))%Z
      then mret (lines, current_line + 1)
      else mret (lines, current_line)
    else mret (lines, current_line)
  else mret (lines, current_line).

(** Step 1 of the function: [' '.join(address.split())]. *)
Definition normalize (address : str) : str :=
  join (py " ") (split address).

(** The segment list: [re.split] pieces, stripped, empty ones dropped. *)
Definition segments (address : str) : list str :=
  strip <$> filter (λ part, truthy (strip part) = true) (re_split address).

Definition split_address_equally (address : str)
  : result (gmap string str) :=
  let address := normalize address in
  if negb (truthy address) then mret (line_dict [] [] [])
  else
    let total_length := length address in
    let target_length := total_length / 3 in
    let parts := segments address in
    if bool_decide (3 ≤ length parts) then distribute_parts parts 3
    else
      let words := split address in
      if bool_decide (length words < 3) then
        let words := words ++ replicate (3 - length words) [] in
        l0 ← getitem words 0;
        l1 ← getitem words 1;
        l2 ← getitem words 2;
        mret (line_dict l0 l1 l2)
      else
        '(lines, _) ← for_each (word_step words target_length)
                        ([[]; []; []], 0) words;
        l0 ← getitem lines 0;
        l1 ← getitem lines 1;
        l2 ← getitem lines 2;
        mret (line_dict l0 l1 l2).

(** ** The request handler *)

Module Api.

(** The request and response models. *)
Record AddressInput := { address : list N }.

Record AddressOutput := {
  address_line_1 : list N;
  address_line_2 : list N;
  address_line_3 : list N;
  original_address : list N
}.

(** What the [try] block can raise: an exception of the core function, or
    a [KeyError] of a dictionary subscript. *)
Inductive exception : Type :=
| CoreError (e : exn)
| KeyError (key : string).

(** Outcome of the handler: the response model, or the [HTTPException] of
    the [except] clause, whose detail is the caught exception. *)
Inductive response : Type :=
| Success (out : AddressOutput)
| HTTPException (status_code : nat) (detail : exception).

(** [result[key]]. *)
Definition subscript (d : gmap string (list N)) (key : string)
  : exception + list N :=
  match d !! key with
  | Some v => inr v
  | None => inl (KeyError key)
  end.

(** [split_address(input_data)], the handler of [POST /split]. *)
Definition split_address (input_data : AddressInput) : response :=
  let body : exception + AddressOutput :=
    match split_address_equally (address input_data) with
    | Raise e => inl (CoreError e)
    | Ok result =>
        match subscript result "address_line_1" with
        | inl e => inl e
        | inr l1 =>
            match subscript result "address_line_2" with
            | inl e => inl e
            | inr l2 =>
                match subscript result "address_line_3" with
                | inl e => inl e
                | inr l3 =>
                    inr {| address_line_1 := l1;
                           address_line_2 := l2;
                           address_line_3 := l3;
                           original_address := address input_data |}
                end
            end
        end
    end in
  match body with
  | inr out => Success out
  | inl e => HTTPException 400 e
  end.

End Api.

(** ** Predicates used by the statements *)

(** A word: non-empty and free of whitespace. *)
Definition is_word (w : str) : Prop :=
  w ≠ [] ∧ Forall (λ c, isspace c = false) w.

(** Both loops fill three lines from left to right.  The lines are
    described by three groups of items: the groups before the current line
    are non-empty, the groups after it are still empty. *)
Definition packing (groups : list (list str)) (cur : nat) : Prop :=
  match groups, cur with
  | [g0; g1; g2], 0 => g1 = [] ∧ g2 = []
  | [g0; g1; g2], 1 => g0 ≠ [] ∧ g2 = []
  | [g0; g1; g2], 2 => g0 ≠ [] ∧ g1 ≠ []
  | _, _ => False
  end.

(** A loop state whose lines are the [sep]-joined [groups]. *)
Definition represents {S : Type} (get_lines : S → list str)
    (get_cur : S → nat) (sep : str) (st : S) (groups : list (list str))
  : Prop :=
  get_lines st = join sep <$> groups
  ∧ packing groups (get_cur st)
  ∧ Forall (Forall (λ w, w ≠ [])) groups.

(** The three lines hold the items in order, [sep]-joined within a line,
    and a line is empty only when no line after it has content. *)
Definition shaped (sep : str) (items : list str) (l1 l2 l3 : str) : Prop :=
  ∃ g0 g1 g2 : list str,
    l1 = join sep g0 ∧ l2 = join sep g1 ∧ l3 = join sep g2
    ∧ g0 ++ g1 ++ g2 = items
    ∧ (g0 = [] → g1 = []) ∧ (g1 = [] → g2 = []).

(** The path taken by [split_address_equally], by the number of
    segments of the normalized input. *)
Definition by_segments (address : str) : bool :=
  bool_decide (3 ≤ length (segments address)).

(** [s.startswith(prefix)] and [s.split(sep)], with which the lines are
    split again. *)
Fixpoint startswith (prefix s : str) : bool :=
  match prefix, s with
  | [], _ => true
  | _ :: _, [] => false
  | p :: prefix', c :: s' => (p =? c)%N && startswith prefix' s'
  end.

(** [s.split(sep)]: the pieces between occurrences of [sep], read from the
    left; [skip] counts the characters of a separator still to pass. *)
Fixpoint split_sep_from (sep : str) (skip : nat) (cur s : str) : list str :=
  match s with
  | [] => [cur]
  | c :: s' =>
      match skip with
      | S k => split_sep_from sep k cur s'
      | 0 =>
          if startswith sep s
          then cur :: split_sep_from sep (length sep - 1) [] s'
          else split_sep_from sep 0 (cur ++ [c]) s'
      end
  end.

Definition split_sep (sep s : str) : result (list str) :=
  if truthy sep then Ok (split_sep_from sep 0 [] s) else Raise ValueError.

(** Normalization as the specification words it, to be compared with
    [normalize]: every run of whitespace becomes a single ASCII space,
    and leading and trailing whitespace is trimmed.  [in_run] tells that
    the previous character was whitespace. *)
Fixpoint collapse_runs (in_run : bool) (s : str) : str :=
  match s with
  | [] => []
  | c :: s' =>
      if isspace c
      then (if in_run then collapse_runs true s'
            else 32%N :: collapse_runs true s')
      else c :: collapse_runs false s'
  end.

Definition normalize_spec (s : str) : str := collapse_runs false (strip s).

(** No trailing whitespace. *)
Fixpoint rtrimmed (s : str) : Prop :=
  match s with
  | [] => True
  | [c] => isspace c = false
  | _ :: s' => rtrimmed s'
  end.

(** Invariant of the loop of [distribute_parts]: [current_length] is the
    length of the current line, the lines after it are empty, and every
    line before it reached [target_length]. *)
Definition part_inv (num_lines target_length : nat)
    (st : list str * nat * nat) : Prop :=
  ∃ a b c : str,
    st.1.1 = [a; b; c] ∧ st.1.2 < num_lines
    ∧ match st.1.2 with
      | 0 => st.2 = length a ∧ b = [] ∧ c = []
      | 1 => st.2 = length b ∧ c = [] ∧ target_length ≤ length a
      | 2 => st.2 = length c
             ∧ target_length ≤ length a ∧ target_length ≤ length b
      | _ => False
      end.

(** What the word loop established when it left a line: the line
    reached [target_length], and, when no word is repeated, at least
    [least] characters of text were left for the later lines. *)
Definition left_line (words : list str) (target_length : nat)
    (before line : list str) (least : nat) : Prop :=
  target_length ≤ length (join (py " ") line)
  ∧ (NoDup words →
     least ≤ length (join (py " ") (drop (length (before ++ line)) words))).

(** What the word loop has established when the current line is [cur]
    and the lines hold the groups [g0], [g1] and [g2]. *)
Definition word_groups (words : list str) (target_length : nat)
    (g0 g1 g2 : list str) (cur : nat) : Prop :=
  match cur with
  | 0 => g1 = [] ∧ g2 = []
  | 1 => g0 ≠ [] ∧ g2 = []
         ∧ 22 ≤ length (join (py " ") words)
         ∧ left_line words target_length [] g0 20
  | 2 => g0 ≠ [] ∧ g1 ≠ []
         ∧ 22 ≤ length (join (py " ") words)
         ∧ left_line words target_length [] g0 20
         ∧ left_line words target_length g0 g1 10
  | _ => False
  end.

(** Invariant of the word loop of [split_address_equally] after the words
    [seen]: the lines are groups of [seen], in order. *)
Definition word_inv (words : list str) (target_length : nat)
    (seen : list str) (st : list str * nat) : Prop :=
  ∃ g0 g1 g2 : list str,
    st.1 = [join (py " ") g0; join (py " ") g1; join (py " ") g2]
    ∧ g0 ++ g1 ++ g2 = seen
    ∧ word_groups words target_length g0 g1 g2 st.2.

(** Every whitespace character is a single ASCII space between two other
    characters of the run read so far; [after_space] tells that the
    previous character was whitespace. *)
Fixpoint spaced (after_space : bool) (s : str) : Prop :=
  match s with
  | [] => True
  | c :: s' =>
      if isspace c
      then c = 32%N ∧ after_space = false ∧ spaced true s'
      else spaced false s'
  end.

(** No leading whitespace. *)
Definition ltrimmed (s : str) : Prop :=
  match s with
  | [] => True
  | c :: _ => isspace c = false
  end.

(** The input with every semicolon written as a comma. *)
Definition commas_for_semicolons (s : str) : str :=
  (λ c, if (c =? 59)%N then 44%N else c) <$> s.

(** A string without a comma. *)
Definition comma_free (x : str) : Prop := Forall (λ c, c ≠ 44%N) x.

(** ** Facts about the string built-ins *)

Lemma bind_Ok {A B} (f : A → result B) (a : A) : Ok a ≫= f = f a.
Proof. reflexivity. Qed.

Section StringFacts.

Implicit Types (s cur w sep : str) (ws : list str).

Lemma truthy_true {A} (l : list A) : truthy l = true ↔ l ≠ [].
Proof. destruct l; simpl; split; congruence. Qed.

Lemma truthy_false {A} (l : list A) : truthy l = false ↔ l = [].
Proof. destruct l; simpl; split; congruence. Qed.

Lemma flush_words cur :
  Forall (λ c, isspace c = false) cur →
  Forall is_word (if truthy cur then [cur] else []).
Proof.
  intros Hcur. destruct cur as [|c cur]; simpl; [apply Forall_nil_2|].
  apply Forall_singleton. by split.
Qed.

Lemma split_from_words cur s :
  Forall (λ c, isspace c = false) cur →
  Forall is_word (split_from cur s).
Proof.
  revert cur. induction s as [|c s IH]; intros cur Hcur; simpl.
  - by apply flush_words.
  - destruct (isspace c) eqn:Hc.
    + apply Forall_app. split; [by apply flush_words|].
      apply IH, Forall_nil_2.
    + apply IH. apply Forall_app. split; [done|].
      by apply Forall_singleton.
Qed.

Lemma split_words s : Forall is_word (split s).
Proof. apply split_from_words, Forall_nil_2. Qed.

Lemma split_from_run cur w s :
  Forall (λ c, isspace c = false) w →
  split_from cur (w ++ s) = split_from (cur ++ w) s.
Proof.
  revert cur. induction w as [|c w IH]; intros cur Hw; simpl.
  - by rewrite app_nil_r.
  - inversion Hw as [|? ? Hc Hw']; subst. rewrite Hc.
    rewrite IH; [|done]. by rewrite <-app_assoc.
Qed.

Lemma isspace_space : isspace 32 = true.
Proof. reflexivity. Qed.

Lemma join_nil sep : join sep [] = [].
Proof. reflexivity. Qed.

Lemma join_singleton sep (x : str) : join sep [x] = x.
Proof. reflexivity. Qed.

Lemma join_cons sep (x y : str) (l : list str) :
  join sep (x :: y :: l) = x ++ sep ++ join sep (y :: l).
Proof. reflexivity. Qed.

Lemma split_from_space cur s :
  split_from cur (py " " ++ s) =
    (if truthy cur then [cur] else []) ++ split_from [] s.
Proof. reflexivity. Qed.

(** Splitting a space-joined list of words gives the words back. *)
Lemma split_join ws :
  Forall is_word ws → split (join (py " ") ws) = ws.
Proof.
  unfold split. induction ws as [|w ws IH]; intros Hws; [done|].
  inversion Hws as [|? ? [Hne Hw] Hws']; subst.
  destruct ws as [|w' ws].
  - rewrite <-(app_nil_r (join _ _)), split_from_run by done.
    destruct w; done.
  - rewrite join_cons, split_from_run, split_from_space, (IH Hws') by done.
    destruct w; done.
Qed.

Lemma normalize_idemp s : normalize (normalize s) = normalize s.
Proof. unfold normalize. by rewrite split_join; [|apply split_words]. Qed.

Lemma split_normalize s : split (normalize s) = split s.
Proof. unfold normalize. apply split_join, split_words. Qed.

(** [join] over a concatenation and over an appended element. *)
Lemma join_app sep (l1 l2 : list str) :
  l1 ≠ [] → l2 ≠ [] →
  join sep (l1 ++ l2) = join sep l1 ++ sep ++ join sep l2.
Proof.
  intros H1 H2. induction l1 as [|x l1 IH]; [done|].
  destruct l1 as [|y l1].
  - simpl. destruct l2; [done|]. done.
  - change (join sep ((x :: y :: l1) ++ l2))
      with (x ++ sep ++ join sep ((y :: l1) ++ l2)).
    rewrite IH; [|done]. simpl. by rewrite <-!app_assoc.
Qed.

Lemma join_snoc sep (g : list str) w :
  join sep (g ++ [w]) =
    if truthy g then join sep g ++ sep ++ w else w.
Proof.
  destruct g as [|x g]; [done|].
  rewrite join_app; [|done..]. done.
Qed.

Lemma join_truthy sep (g : list str) :
  Forall (λ w, w ≠ []) g → truthy (join sep g) = truthy g.
Proof.
  intros Hg. destruct g as [|x g]; [done|].
  inversion Hg as [|? ? Hx _]; subst.
  destruct g; simpl; destruct x; done.
Qed.

Lemma join_nil_inv sep (g : list str) :
  Forall (λ w, w ≠ []) g → join sep g = [] → g = [].
Proof.
  intros Hg Hj. apply truthy_false. rewrite <-(join_truthy sep g Hg).
  by apply truthy_false.
Qed.

End StringFacts.

(** ** Facts about the list operations *)

Section ListFacts.

Context `{EqDecision A}.
Implicit Types (l : list A) (x : A).

(** [l.index(x)] returns the first position holding [x]. *)
Lemma index_first l x i :
  l !! i = Some x → (∀ k, k < i → l !! k ≠ Some x) → index l x = Ok i.
Proof.
  revert i. induction l as [|y l IH]; intros i Hi Hfirst; [done|].
  simpl. destruct i as [|i].
  - simpl in Hi. injection Hi as ->. by rewrite decide_True.
  - rewrite decide_False.
    + rewrite (IH i); [done|done|].
      intros k Hk. apply (Hfirst (S k)). lia.
    + intros ->. by apply (Hfirst 0); [lia|].
Qed.

Lemma first_occurrence l x :
  x ∈ l → ∃ i, l !! i = Some x ∧ ∀ k, k < i → l !! k ≠ Some x.
Proof.
  induction l as [|y l IH]; intros Hx; [by apply elem_of_nil in Hx|].
  destruct (decide (y = x)) as [->|Hne].
  - exists 0. split; [done|]. intros k Hk. lia.
  - apply elem_of_cons in Hx as [->|Hx]; [done|].
    destruct (IH Hx) as (i & Hi & Hfirst). exists (S i). split; [done|].
    intros [|k] Hk; simpl; [congruence|]. apply Hfirst. lia.
Qed.

Lemma index_elem_of l x : x ∈ l → ∃ i, index l x = Ok i.
Proof.
  intros Hx. destruct (first_occurrence l x Hx) as (i & Hi & Hfirst).
  exists i. by apply index_first.
Qed.

Lemma getitem_lookup {B} (l : list B) i y :
  l !! i = Some y → getitem l i = Ok y.
Proof. unfold getitem. by intros ->. Qed.

Lemma setitem_lookup {B} (l : list B) i y z :
  l !! i = Some y → setitem l i z = Ok (<[i:=z]> l).
Proof.
  intros Hi. unfold setitem. rewrite decide_True; [done|].
  by eapply lookup_lt_Some.
Qed.

End ListFacts.

Lemma remaining_after_first (items : list str) (item : str) i :
  items !! i = Some item → (∀ k, k < i → items !! k ≠ Some item) →
  remaining_after items item = Ok (drop (S i) items).
Proof.
  intros Hi Hfirst. unfold remaining_after.
  rewrite (index_first _ _ _ Hi Hfirst). simpl.
  by replace (i + 1) with (S i) by lia.
Qed.

Lemma remaining_after_elem_of (items : list str) (item : str) :
  item ∈ items → ∃ rest, remaining_after items item = Ok rest.
Proof.
  intros Hx. destruct (first_occurrence _ _ Hx) as (i & Hi & Hfirst).
  eexists. by apply remaining_after_first.
Qed.

(** ** The packing loops *)

Section Packing.

Context {S : Type} (get_lines : S → list str) (get_cur : S → nat).
Context (sep : str) (items : list str) (step : S → str → result S).

(** What a loop body has to do: append the item to the current line and
    stay, or move to the next line when there is one. *)
Hypothesis step_spec : ∀ st groups g x,
  represents get_lines get_cur sep st groups →
  groups !! get_cur st = Some g →
  x ∈ items → x ≠ [] →
  ∃ st', step st x = Ok st'
    ∧ get_lines st' = <[get_cur st := join sep (g ++ [x])]> (get_lines st)
    ∧ (get_cur st' = get_cur st
       ∨ get_cur st' = get_cur st + 1 ∧ get_cur st < 2).

Lemma packing_step st groups x :
  represents get_lines get_cur sep st groups → x ∈ items → x ≠ [] →
  ∃ st' groups', step st x = Ok st'
    ∧ represents get_lines get_cur sep st' groups'
    ∧ concat groups' = concat groups ++ [x].
Proof.
  intros (Hlines & Hpack & Hne) Hx Hxne.
  destruct groups as [|g0 [|g1 [|g2 [|? ?]]]]; try done.
  destruct (get_cur st) as [|[|[|c]]] eqn:Hcur; try done; simpl in Hpack.
  - destruct (step_spec st [g0; g1; g2] g0 x) as (st' & Hst & Hl & Hc);
      [by unfold represents; rewrite Hcur|by rewrite Hcur|done..|].
    exists st', [g0 ++ [x]; g1; g2]. unfold represents.
    rewrite Hst, Hl, Hlines, Hcur.
    destruct Hpack as [-> ->].
    split_and!; [done|done| |..].
    + destruct Hc as [->|[-> _]]; rewrite Hcur; simpl; [done|].
      split; [|done]. by destruct g0.
    + apply Forall_cons in Hne as [H0 Hne]. apply Forall_cons. split; [|done].
      apply Forall_app. split; [done|]. by apply Forall_singleton.
    + simpl. by rewrite !app_nil_r.
  - destruct (step_spec st [g0; g1; g2] g1 x) as (st' & Hst & Hl & Hc);
      [by unfold represents; rewrite Hcur|by rewrite Hcur|done..|].
    exists st', [g0; g1 ++ [x]; g2]. unfold represents.
    rewrite Hst, Hl, Hlines, Hcur.
    destruct Hpack as [H0 ->].
    split_and!; [done|done| |..].
    + destruct Hc as [->|[-> _]]; rewrite Hcur; simpl; [done|].
      split; [done|]. by destruct g1.
    + apply Forall_cons in Hne as [? Hne]. apply Forall_cons in Hne as [? Hne].
      apply Forall_cons. split; [done|]. apply Forall_cons. split; [|done].
      apply Forall_app. split; [done|]. by apply Forall_singleton.
    + simpl. by rewrite !app_nil_r, <-!app_assoc.
  - destruct (step_spec st [g0; g1; g2] g2 x) as (st' & Hst & Hl & Hc);
      [by unfold represents; rewrite Hcur|by rewrite Hcur|done..|].
    exists st', [g0; g1; g2 ++ [x]]. unfold represents.
    rewrite Hst, Hl, Hlines, Hcur.
    destruct Hpack as [H0 H1].
    split_and!; [done|done| |..].
    + destruct Hc as [->|[_ ?]]; [|lia]. by rewrite Hcur.
    + apply Forall_cons in Hne as [? Hne]. apply Forall_cons in Hne as [? Hne].
      apply Forall_cons in Hne as [? Hne].
      repeat (apply Forall_cons; split; [done|]).
      apply Forall_cons. split; [|done].
      apply Forall_app. split; [done|]. by apply Forall_singleton.
    + simpl. by rewrite !app_nil_r, <-!app_assoc.
Qed.

(** The whole loop: it never raises, and the groups it ends with hold
    the items in the order of the list. *)
Lemma for_each_packing rest st groups :
  represents get_lines get_cur sep st groups → rest ⊆ items →
  Forall (λ w, w ≠ []) rest →
  ∃ st' groups', for_each step st rest = Ok st'
    ∧ represents get_lines get_cur sep st' groups'
    ∧ concat groups' = concat groups ++ rest.
Proof.
  revert st groups.
  induction rest as [|x rest IH]; intros st groups Hr Hsub Hne.
  - exists st, groups. by rewrite app_nil_r.
  - apply Forall_cons in Hne as [Hx Hne].
    destruct (packing_step st groups x Hr) as (st1 & groups1 & Hst & Hr1 & Hc1);
      [set_solver|done|].
    destruct (IH st1 groups1 Hr1) as (st' & groups' & Hfin & Hr' & Hc');
      [set_solver|done|].
    exists st', groups'. simpl. rewrite Hst. simpl.
    split_and!; [done|done|]. by rewrite Hc', Hc1, <-app_assoc.
Qed.

End Packing.

Global Arguments join : simpl never.
Global Arguments py : simpl never.
Global Arguments Nat.div : simpl never.

(** Closes the goal left by a branch of a loop body: the new state, the
    updated line and the new line index. *)
Ltac step_done :=
  eexists; split_and!;
  [reflexivity | reflexivity
  | first [by left | right; split; simpl; lia]].

Section Steps.

Implicit Types (lines : list str) (groups : list (list str)).

(** The two branches of [if lines[current_line]: ... else: ...] append
    the item to the group of the current line. *)
Lemma append_to_line sep groups cur g x :
  groups !! cur = Some g → Forall (Forall (λ w, w ≠ [])) groups →
  let line := join sep g in
  getitem (join sep <$> groups) cur = Ok line
  ∧ (if truthy line then line ++ sep ++ x else x) = join sep (g ++ [x])
  ∧ ∀ v, setitem (join sep <$> groups) cur v
         = Ok (<[cur:=v]> (join sep <$> groups)).
Proof.
  intros Hg Hne line.
  assert (Hl : (join sep <$> groups) !! cur = Some line)
    by (by rewrite list_lookup_fmap, Hg).
  split_and!.
  - by apply getitem_lookup.
  - unfold line. rewrite join_truthy, join_snoc; [done|].
    by eapply Forall_lookup_1.
  - intros v. by eapply setitem_lookup.
Qed.

Lemma word_step_spec words target_length
    (st : list str * nat) groups g x :
  represents fst snd (py " ") st groups → groups !! st.2 = Some g →
  x ∈ words → x ≠ [] →
  ∃ st', word_step words target_length st x = Ok st'
    ∧ st'.1 = <[st.2 := join (py " ") (g ++ [x])]> st.1
    ∧ (st'.2 = st.2 ∨ st'.2 = st.2 + 1 ∧ st.2 < 2).
Proof.
  destruct st as [lines cur]. intros (Hlines & _ & Hne) Hg Hx _.
  simpl in *. subst lines.
  destruct (append_to_line (py " ") groups cur g x Hg Hne)
    as (Hget & Happ & Hset).
  destruct (remaining_after_elem_of words x Hx) as (rest & Hrest).
  unfold word_step. rewrite Hget. simpl.
  replace (if truthy (join (py " ") g)
           then setitem (join (py " ") <$> groups) cur
                  (join (py " ") g ++ py " " ++ x)
           else setitem (join (py " ") <$> groups) cur x)
    with (setitem (join (py " ") <$> groups) cur
            (join (py " ") (g ++ [x])))
    by (rewrite <-Happ; by destruct (truthy _)).
  rewrite Hset. simpl.
  case_bool_decide as Hcur; [|step_done].
  rewrite Hrest. simpl.
  rewrite (getitem_lookup _ _ (join (py " ") (g ++ [x]))).
  2:{ apply list_lookup_insert_eq. rewrite length_fmap.
      by eapply lookup_lt_Some. }
  simpl. destruct (_ && _); [|step_done].
  case_bool_decide; step_done.
Qed.

Lemma part_step_spec parts target_length
    (st : list str * nat * nat) groups g x :
  represents (λ st, st.1.1) (λ st, st.1.2) (py ", ") st groups →
  groups !! st.1.2 = Some g →
  x ∈ parts → x ≠ [] →
  ∃ st', part_step parts 3 target_length st x = Ok st'
    ∧ st'.1.1 = <[st.1.2 := join (py ", ") (g ++ [x])]> st.1.1
    ∧ (st'.1.2 = st.1.2 ∨ st'.1.2 = st.1.2 + 1 ∧ st.1.2 < 2).
Proof.
  destruct st as [[lines cur] len]. intros (Hlines & _ & Hne) Hg Hx _.
  simpl in *. subst lines.
  destruct (append_to_line (py ", ") groups cur g x Hg Hne)
    as (Hget & Happ & Hset).
  destruct (remaining_after_elem_of parts x Hx) as (rest & Hrest).
  unfold part_step. rewrite Hget. simpl. rewrite !Hset, <-Happ.
  destruct (truthy (join (py ", ") g)); simpl.
  - case_bool_decide as Hcur; [|step_done].
    rewrite Hrest. simpl. destruct (_ && _); step_done.
  - case_bool_decide as Hcur; [|step_done].
    rewrite Hrest. simpl. destruct (_ && _); step_done.
Qed.

End Steps.

(** ** Shape of the result *)

Section Shape.

Implicit Types (s address : str) (parts words : list str).

Lemma represents_shaped {S} (get_lines : S → list str) get_cur sep st
    groups items :
  represents get_lines get_cur sep st groups → concat groups = items →
  ∃ l1 l2 l3, get_lines st = [l1; l2; l3] ∧ shaped sep items l1 l2 l3.
Proof.
  intros (Hlines & Hpack & _) Hitems.
  destruct groups as [|g0 [|g1 [|g2 [|? ?]]]]; try done.
  exists (join sep g0), (join sep g1), (join sep g2). split; [done|].
  exists g0, g1, g2. simpl in Hitems. rewrite app_nil_r in Hitems.
  destruct (get_cur st) as [|[|[|?]]]; simpl in Hpack; [..|done];
    destruct Hpack; split_and!; (done || congruence).
Qed.

Lemma represents_init {S} (get_lines : S → list str) get_cur sep st :
  get_lines st = [[]; []; []] → get_cur st = 0 →
  represents get_lines get_cur sep st [[]; []; []].
Proof.
  intros Hl Hc. unfold represents. rewrite Hl, Hc.
  split_and!; [done|done|]. repeat (apply Forall_cons; split; [done|]).
  done.
Qed.

(** The word loop never raises. *)
Lemma word_loop words target_length :
  Forall (λ w, w ≠ []) words →
  ∃ l1 l2 l3 cur,
    for_each (word_step words target_length) ([[]; []; []], 0) words
      = Ok ([l1; l2; l3], cur)
    ∧ shaped (py " ") words l1 l2 l3.
Proof.
  intros Hne.
  destruct (for_each_packing fst snd (py " ") words
              (word_step words target_length)
              (word_step_spec words target_length)
              words ([[]; []; []], 0) [[]; []; []])
    as ([lines cur] & groups & Hrun & Hrep & Hcat);
    [by apply represents_init|done|done|].
  destruct (represents_shaped _ _ _ _ _ words Hrep Hcat)
    as (l1 & l2 & l3 & Hl & Hshape).
  simpl in Hl. subst lines. by exists l1, l2, l3, cur.
Qed.

(** [distribute_parts(parts, 3)] never raises on three or more
    non-empty parts. *)
Lemma distribute_parts_shaped parts :
  3 ≤ length parts → Forall (λ w, w ≠ []) parts →
  ∃ l1 l2 l3,
    distribute_parts parts 3 = Ok (line_dict l1 l2 l3)
    ∧ shaped (py ", ") parts l1 l2 l3.
Proof.
  intros Hlen Hne. unfold distribute_parts. case_bool_decide as H3.
  - destruct parts as [|a [|b [|c [|? ?]]]]; try done.
    exists a, b, c. split; [done|]. exists [a], [b], [c].
    by split_and!.
  - unfold floordiv. rewrite decide_False, bind_Ok by done.
    destruct (for_each_packing (λ st, st.1.1) (λ st, st.1.2) (py ", ")
                parts
                (part_step parts 3 (sum_list (length <$> parts) / 3))
                (part_step_spec parts _)
                parts ([[]; []; []], 0, 0) [[]; []; []])
      as ([[lines cur] len] & groups & Hrun & Hrep & Hcat);
      [by apply represents_init|done|done|].
    destruct (represents_shaped _ _ _ _ _ parts Hrep Hcat)
      as (l1 & l2 & l3 & Hl & Hshape).
    simpl in Hl. subst lines. rewrite Hrun. simpl.
    by exists l1, l2, l3.
Qed.

Lemma segments_nonempty address :
  Forall (λ w, w ≠ []) (segments address).
Proof.
  unfold segments. apply Forall_fmap, Forall_forall.
  intros part Hpart. apply list_elem_of_filter in Hpart as [Hpart _].
  simpl. by apply truthy_true.
Qed.

Lemma words_nonempty s : Forall (λ w, w ≠ []) (split s).
Proof.
  eapply Forall_impl; [apply split_words|]. by intros w [? _].
Qed.

Lemma split_address_equally_shaped s :
  ∃ l1 l2 l3,
    split_address_equally s = Ok (line_dict l1 l2 l3)
    ∧ if by_segments (normalize s)
      then shaped (py ", ") (segments (normalize s)) l1 l2 l3
      else shaped (py " ") (split (normalize s)) l1 l2 l3.
Proof.
  unfold split_address_equally, by_segments.
  destruct (truthy (normalize s)) eqn:Hn; simpl.
  - case_bool_decide as Hseg.
    { apply distribute_parts_shaped; [done|apply segments_nonempty]. }
    case_bool_decide as Hw.
    + destruct (split (normalize s)) as [|w1 [|w2 [|? ?]]] eqn:Hws;
        simpl in Hw; try lia; simpl.
      * exists [], [], []. split; [done|]. by exists [], [], [].
      * exists w1, [], []. split; [done|]. by exists [w1], [], [].
      * exists w1, w2, []. split; [done|]. by exists [w1], [w2], [].
    + destruct (word_loop (split (normalize s)) (length (normalize s) / 3))
        as (l1 & l2 & l3 & cur & Hrun & Hshape);
        [apply words_nonempty|].
      rewrite Hrun. simpl. by exists l1, l2, l3.
  - apply truthy_false in Hn. rewrite Hn.
    exists [], [], []. split; [done|].
    replace (bool_decide (3 ≤ length (segments []))) with false by done.
    by exists [], [], [].
Qed.

End Shape.

(** ** The returned dictionary *)

Section Dict.

Lemma line_dict_lookup (l1 l2 l3 : str) :
  line_dict l1 l2 l3 !! "address_line_1"%string = Some l1
  ∧ line_dict l1 l2 l3 !! "address_line_2"%string = Some l2
  ∧ line_dict l1 l2 l3 !! "address_line_3"%string = Some l3.
Proof. unfold line_dict. split_and!; by simplify_map_eq. Qed.

Lemma line_dict_dom (l1 l2 l3 : str) :
  dom (line_dict l1 l2 l3)
  = ({[ "address_line_1"%string; "address_line_2"%string;
        "address_line_3"%string ]} : gset string).
Proof.
  unfold line_dict. rewrite !dom_insert_L, dom_singleton_L. set_solver.
Qed.

Lemma line_dict_size (l1 l2 l3 : str) : size (line_dict l1 l2 l3) = 3.
Proof.
  unfold line_dict.
  rewrite !map_size_insert_None, map_size_singleton; by simplify_map_eq.
Qed.

Lemma line_dict_inj (l1 l2 l3 m1 m2 m3 : str) :
  line_dict l1 l2 l3 = line_dict m1 m2 m3 → l1 = m1 ∧ l2 = m2 ∧ l3 = m3.
Proof.
  intros Heq.
  destruct (line_dict_lookup l1 l2 l3) as (H1 & H2 & H3).
  destruct (line_dict_lookup m1 m2 m3) as (K1 & K2 & K3).
  rewrite Heq in H1, H2, H3. split_and!; congruence.
Qed.

End Dict.

(** ** Properties of [split_address_equally] *)

(** C1: for every input, the result is a dictionary with exactly the three
    keys [address_line_1], [address_line_2] and [address_line_3], each
    bound to a string. *)
Theorem split_address_equally_three_lines (s : str) :
  ∃ d : gmap string str,
    split_address_equally s = Ok d
    ∧ size d = 3
    ∧ dom d = ({[ "address_line_1"%string; "address_line_2"%string;
                  "address_line_3"%string ]} : gset string)
    ∧ ∃ l1 l2 l3 : str,
        d !! "address_line_1"%string = Some l1
        ∧ d !! "address_line_2"%string = Some l2
        ∧ d !! "address_line_3"%string = Some l3.
Proof.
  destruct (split_address_equally_shaped s) as (l1 & l2 & l3 & Hrun & _).
  exists (line_dict l1 l2 l3).
  split_and!; [done|apply line_dict_size|apply line_dict_dom|].
  exists l1, l2, l3. apply line_dict_lookup.
Qed.

(** C2: [split_address_equally] is total: on every string it returns
    normally; no index, [index] search or division in it raises. *)
Theorem split_address_equally_total (s : str) :
  (∃ d, split_address_equally s = Ok d)
  ∧ ∀ e : exn, split_address_equally s ≠ Raise e.
Proof.
  destruct (split_address_equally_shaped s) as (l1 & l2 & l3 & Hrun & _).
  rewrite Hrun. split; [by eexists|done].
Qed.

(** C3, as the code has it: ["123 Short St"] has one segment and exactly
    three words, so the word loop runs without padding.  The target length
    is 4; after every word the remaining text is shorter than the ten
    characters per remaining line that the advance guard asks for, so the
    loop stays on the first line at each of its three rounds, and the
    whole text is on the first line. *)
Theorem split_123_short_st :
  by_segments (normalize (py "123 Short St")) = false
  ∧ split (normalize (py "123 Short St")) = [py "123"; py "Short"; py "St"]
  ∧ length (normalize (py "123 Short St")) / 3 = 4
  ∧ Forall
      (λ word, ∃ remaining_words,
         remaining_after (split (normalize (py "123 Short St"))) word
         = Ok remaining_words
         ∧ length (join (py " ") remaining_words) < 2 * 10)
      (split (normalize (py "123 Short St")))
  ∧ word_step (split (normalize (py "123 Short St")))
      (length (normalize (py "123 Short St")) / 3)
      ([[]; []; []], 0) (py "123")
    = Ok ([py "123"; []; []], 0)
  ∧ word_step (split (normalize (py "123 Short St")))
      (length (normalize (py "123 Short St")) / 3)
      ([py "123"; []; []], 0) (py "Short")
    = Ok ([py "123 Short"; []; []], 0)
  ∧ word_step (split (normalize (py "123 Short St")))
      (length (normalize (py "123 Short St")) / 3)
      ([py "123 Short"; []; []], 0) (py "St")
    = Ok ([py "123 Short St"; []; []], 0)
  ∧ for_each
      (word_step (split (normalize (py "123 Short St")))
         (length (normalize (py "123 Short St")) / 3))
      ([[]; []; []], 0) (split (normalize (py "123 Short St")))
    = Ok ([py "123 Short St"; []; []], 0)
  ∧ split_address_equally (py "123 Short St")
    = Ok (line_dict (py "123 Short St") [] []).
Proof.
  assert (Hwords : split (normalize (py "123 Short St"))
                   = [py "123"; py "Short"; py "St"]) by (by vm_compute).
  split_and!; try (by vm_compute).
  rewrite Hwords.
  repeat (apply Forall_cons; split;
          [eexists; split; [by vm_compute|vm_compute; lia]|]).
  apply Forall_nil_2.
Qed.

(** C3, as stated, fails: the result is not one word per line. *)
Lemma split_123_short_st_not_one_word_per_line :
  split_address_equally (py "123 Short St")
  ≠ Ok (line_dict (py "123") (py "Short") (py "St")).
Proof.
  intros Heq.
  assert (Hrun : split_address_equally (py "123 Short St")
                 = Ok (line_dict (py "123 Short St") [] []))
    by (by vm_compute).
  rewrite Hrun in Heq.
  assert (Hd : line_dict (py "123 Short St") [] []
               = line_dict (py "123") (py "Short") (py "St"))
    by congruence.
  apply line_dict_inj in Hd as (Hd & _). by vm_compute in Hd.
Qed.

(** C5: with exactly three segments, each segment is one line, verbatim. *)
Theorem split_three_segments (s a b c : str) :
  segments (normalize s) = [a; b; c] →
  split_address_equally s = Ok (line_dict a b c).
Proof.
  intros Hseg. unfold split_address_equally.
  destruct (truthy (normalize s)) eqn:Hn; simpl.
  - by rewrite Hseg.
  - apply truthy_false in Hn. by rewrite Hn in Hseg.
Qed.

Lemma split_three_segments_witness :
  segments (normalize (py "A, B, C")) = [py "A"; py "B"; py "C"]
  ∧ split_address_equally (py "A, B, C")
    = Ok (line_dict (py "A") (py "B") (py "C")).
Proof.
  split; [by vm_compute|].
  apply (split_three_segments (py "A, B, C") (py "A") (py "B") (py "C")).
  by vm_compute.
Defined.

(** C6: an input that normalizes to the empty string gives three empty
    lines; with fewer than three segments and fewer than three words, the
    lines are the words, unmodified, followed by empty strings. *)
Theorem split_few_words (s : str) :
  (normalize s = [] → split_address_equally s = Ok (line_dict [] [] []))
  ∧ (length (segments (normalize s)) < 3 →
     length (split (normalize s)) < 3 →
     ∃ l1 l2 l3 : str,
       split (normalize s) ++ replicate (3 - length (split (normalize s))) []
       = [l1; l2; l3]
       ∧ split_address_equally s = Ok (line_dict l1 l2 l3)).
Proof.
  unfold split_address_equally. split.
  - by intros ->.
  - intros Hseg Hw. destruct (truthy (normalize s)) eqn:Hn; simpl.
    + rewrite bool_decide_false, bool_decide_true by lia.
      destruct (split (normalize s)) as [|w1 [|w2 [|? ?]]];
        simpl in Hw; try lia; by eexists _, _, _.
    + apply truthy_false in Hn. rewrite Hn. by exists [], [], [].
Qed.

Lemma split_few_words_witness :
  split_address_equally (py "") = Ok (line_dict [] [] [])
  ∧ split_address_equally (py "Hello") = Ok (line_dict (py "Hello") [] []).
Proof.
  split.
  - apply (split_few_words (py "")). by vm_compute.
  - destruct (proj2 (split_few_words (py "Hello")))
      as (l1 & l2 & l3 & Hpad & ->); [vm_compute; lia..|].
    vm_compute in Hpad. by injection Hpad as <- <- <-.
Defined.

(** ** Normalization against its specification *)

Section Normalization.

Implicit Types (s t cur ws : str).

Lemma split_from_spaces cur ws :
  Forall (λ c, isspace c = true) ws →
  split_from cur ws = if truthy cur then [cur] else [].
Proof.
  intros Hws. revert cur. induction Hws as [|c ws Hc _ IH]; intros cur.
  - done.
  - simpl. by rewrite Hc, IH, app_nil_r.
Qed.

Lemma split_from_app_spaces cur t ws :
  Forall (λ c, isspace c = true) ws →
  split_from cur (t ++ ws) = split_from cur t.
Proof.
  intros Hws. revert cur. induction t as [|c t IH]; intros cur.
  - by rewrite app_nil_l, split_from_spaces.
  - simpl. destruct (isspace c); by rewrite IH.
Qed.

Lemma lstrip_decompose s :
  ∃ ws, Forall (λ c, isspace c = true) ws ∧ s = ws ++ lstrip s.
Proof.
  induction s as [|c s (ws & Hws & IH)]; [by exists []|].
  simpl. destruct (isspace c) eqn:Hc.
  - exists (c :: ws). split; [by apply Forall_cons|]. simpl. congruence.
  - by exists [].
Qed.

Lemma rstrip_decompose s :
  ∃ ws, Forall (λ c, isspace c = true) ws ∧ s = rstrip s ++ ws.
Proof.
  destruct (lstrip_decompose (reverse s)) as (ws & Hws & Heq).
  exists (reverse ws). split; [by apply Forall_reverse|].
  unfold rstrip. rewrite <-reverse_app, <-Heq. by rewrite reverse_involutive.
Qed.

Lemma split_lstrip s : split (lstrip s) = split s.
Proof.
  unfold split. induction s as [|c s IH]; [done|].
  simpl. destruct (isspace c) eqn:Hc; simpl; [exact IH|by rewrite Hc].
Qed.

Lemma split_rstrip s : split (rstrip s) = split s.
Proof.
  destruct (rstrip_decompose s) as (ws & Hws & Heq).
  unfold split. rewrite Heq at 2. by rewrite split_from_app_spaces.
Qed.

Lemma split_strip s : split (strip s) = split s.
Proof. unfold strip. by rewrite split_rstrip, split_lstrip. Qed.

Lemma lstrip_head s :
  lstrip s = [] ∨ ∃ c t, lstrip s = c :: t ∧ isspace c = false.
Proof.
  induction s as [|c s IH]; [by left|].
  simpl. destruct (isspace c) eqn:Hc; [done|]. right. by exists c, s.
Qed.

Lemma rtrimmed_snoc s c : isspace c = false → rtrimmed (s ++ [c]).
Proof.
  intros Hc. induction s as [|a s IH]; [done|].
  simpl. by destruct (s ++ [c]) eqn:E; [destruct s|].
Qed.

Lemma rtrimmed_rstrip s : rtrimmed (rstrip s).
Proof.
  unfold rstrip.
  destruct (lstrip_head (reverse s)) as [->|(c & t & -> & Hc)]; [done|].
  rewrite reverse_cons. by apply rtrimmed_snoc.
Qed.

Lemma rtrimmed_tail c s : rtrimmed (c :: s) → rtrimmed s.
Proof. by destruct s. Qed.

Lemma lstrip_snoc s c :
  isspace c = false → lstrip (s ++ [c]) = lstrip s ++ [c].
Proof.
  intros Hc. induction s as [|a s IH]; simpl; [by rewrite Hc|].
  by destruct (isspace a).
Qed.

Lemma rstrip_cons c s :
  isspace c = false → rstrip (c :: s) = c :: rstrip s.
Proof.
  intros Hc. unfold rstrip.
  by rewrite reverse_cons, lstrip_snoc, reverse_snoc.
Qed.

Lemma collapse_runs_strip s :
  collapse_runs true (strip s) = collapse_runs false (strip s).
Proof.
  unfold strip.
  destruct (lstrip_head s) as [->|(c & t & -> & Hc)]; [done|].
  rewrite rstrip_cons by done. simpl. by rewrite Hc.
Qed.

(** A non-empty string without trailing whitespace has a word. *)
Lemma split_from_rtrimmed cur s :
  rtrimmed s → s ≠ [] → split_from cur s ≠ [].
Proof.
  revert cur. induction s as [|c s IH]; intros cur Htrim Hne; [done|].
  destruct s as [|c' s].
  - simpl in *. rewrite Htrim. by destruct cur.
  - assert (Hs : ∀ cur', split_from cur' (c' :: s) ≠ [])
      by (intros cur'; by apply IH).
    change (split_from cur (c :: c' :: s))
      with (if isspace c
            then (if truthy cur then [cur] else [])
                 ++ split_from [] (c' :: s)
            else split_from (cur ++ [c]) (c' :: s)).
    destruct (isspace c); [|done].
    intros [_ Hnil]%app_eq_nil. by apply (Hs []).
Qed.

(** The words read from a string without trailing whitespace, joined by
    spaces, are the string with its whitespace runs collapsed. *)
Lemma join_split_from s :
  rtrimmed s →
  (∀ cur, cur ≠ [] →
     join (py " ") (split_from cur s) = cur ++ collapse_runs false s)
  ∧ join (py " ") (split_from [] s) = collapse_runs true s.
Proof.
  induction s as [|c s IH]; intros Htrim.
  - split; [|done]. intros cur Hcur. simpl.
    destruct cur; [done|]. simpl. by rewrite join_singleton, app_nil_r.
  - destruct (IH (rtrimmed_tail _ _ Htrim)) as [IH1 IH2].
    simpl. destruct (isspace c) eqn:Hc.
    + assert (Hs : s ≠ []) by (intros ->; simpl in Htrim; congruence).
      split; [|done]. intros cur Hcur.
      pose proof (split_from_rtrimmed [] s (rtrimmed_tail _ _ Htrim) Hs).
      destruct cur as [|a cur]; [done|]. simpl.
      destruct (split_from [] s) as [|w ws] eqn:Hw; [done|].
      by rewrite join_cons, IH2.
    + split.
      * intros cur Hcur. rewrite IH1 by (by destruct cur).
        by rewrite <-app_assoc.
      * by rewrite IH1.
Qed.

(** The source's normalization is the specified one. *)
Lemma normalize_refines s : normalize s = normalize_spec s.
Proof.
  unfold normalize, normalize_spec.
  rewrite <-split_strip, <-collapse_runs_strip.
  apply join_split_from. unfold strip. apply rtrimmed_rstrip.
Qed.

End Normalization.

(** C7: the normalization of the source collapses every whitespace run to
    one space and trims both ends, and the result on an input is the
    result on its normalization. *)
Theorem split_address_equally_normalize (s : str) :
  normalize s = normalize_spec s
  ∧ split_address_equally s = split_address_equally (normalize_spec s).
Proof.
  split; [apply normalize_refines|].
  rewrite <-normalize_refines. unfold split_address_equally.
  by rewrite normalize_idemp.
Qed.

Section Trailing.

Context (sep : str) (items : list str) (l1 l2 l3 : str).
Hypothesis items_nonempty : Forall (λ w, w ≠ []) items.
Hypothesis lines_shaped : shaped sep items l1 l2 l3.

(** Empty lines come last, and the first line is empty only when there
    is no item at all. *)
Lemma shaped_trailing :
  (l1 = [] → l2 = []) ∧ (l2 = [] → l3 = []) ∧ (items ≠ [] → l1 ≠ []).
Proof.
  destruct lines_shaped as (g0 & g1 & g2 & -> & -> & -> & Hcat & H01 & H12).
  rewrite <-Hcat in items_nonempty.
  apply Forall_app in items_nonempty as [Hg0 Hg12].
  apply Forall_app in Hg12 as [Hg1 Hg2].
  split_and!.
  - intros Hj%join_nil_inv; [|done]. by rewrite (H01 Hj).
  - intros Hj%join_nil_inv; [|done]. by rewrite (H12 Hj).
  - intros Hitems Hj%join_nil_inv; [|done]. apply Hitems.
    rewrite <-Hcat, Hj, (H01 Hj), (H12 (H01 Hj)). done.
Qed.

(** Joining the non-empty lines gives the joined items. *)
Lemma shaped_join :
  join sep (filter (λ l, l ≠ []) [l1; l2; l3]) = join sep items.
Proof.
  destruct lines_shaped as (g0 & g1 & g2 & -> & -> & -> & Hcat & H01 & H12).
  rewrite <-Hcat in items_nonempty.
  apply Forall_app in items_nonempty as [Hg0 Hg12].
  apply Forall_app in Hg12 as [Hg1 Hg2].
  assert (Hfalse : ∀ l : list str,
             filter (λ l, l ≠ []) (join sep [] :: l)
             = filter (λ l, l ≠ []) l)
    by (intros l; by apply filter_cons_False; intros Hne).
  assert (Htrue : ∀ (g : list str) l, Forall (λ w, w ≠ []) g → g ≠ [] →
             filter (λ l, l ≠ []) (join sep g :: l)
             = join sep g :: filter (λ l, l ≠ []) l).
  { intros g l Hg Hne. apply filter_cons_True.
    intros Hj. by apply Hne, (join_nil_inv sep). }
  rewrite <-Hcat.
  destruct (decide (g0 = [])) as [E0|N0].
  { rewrite E0, (H01 E0), (H12 (H01 E0)), !Hfalse. done. }
  destruct (decide (g1 = [])) as [E1|N1].
  { rewrite E1, (H12 E1), Htrue, !Hfalse, !app_nil_r by done. done. }
  destruct (decide (g2 = [])) as [E2|N2].
  { rewrite E2, !Htrue, !Hfalse, !app_nil_r by done.
    rewrite join_app by done. done. }
  rewrite !Htrue by done. rewrite filter_nil.
  assert (g1 ++ g2 ≠ []) by (by destruct g1).
  by rewrite (join_app sep g0 (g1 ++ g2)), (join_app sep g1 g2).
Qed.

End Trailing.

Lemma normalize_nonempty_words (s : str) :
  normalize s ≠ [] → split (normalize s) ≠ [].
Proof.
  intros Hn Hw. apply Hn. rewrite <-normalize_idemp.
  unfold normalize at 1. by rewrite Hw.
Qed.

(** C9: an empty line is followed by empty lines only, and the first line
    is non-empty whenever the normalized input is. *)
Theorem empty_lines_trail (s : str) :
  ∃ l1 l2 l3 : str,
    split_address_equally s = Ok (line_dict l1 l2 l3)
    ∧ (l1 = [] → l2 = [] ∧ l3 = [])
    ∧ (l2 = [] → l3 = [])
    ∧ (normalize s ≠ [] → l1 ≠ []).
Proof.
  destruct (split_address_equally_shaped s) as (l1 & l2 & l3 & Hrun & Hshape).
  exists l1, l2, l3. split; [done|].
  unfold by_segments in Hshape. case_bool_decide as Hseg.
  - destruct (shaped_trailing _ _ _ _ _ (segments_nonempty _) Hshape)
      as (H12 & H23 & H1).
    split_and!; [auto|auto|]. intros _. apply H1.
    intros Hnil. rewrite Hnil in Hseg. simpl in Hseg. lia.
  - destruct (shaped_trailing _ _ _ _ _ (words_nonempty _) Hshape)
      as (H12 & H23 & H1).
    split_and!; [auto|auto|]. intros Hn. by apply H1, normalize_nonempty_words.
Qed.

(** C10: on the word path, the non-empty lines joined by single spaces are
    the normalized input. *)
Theorem word_path_preserves_text (s : str) :
  length (segments (normalize s)) < 3 →
  ∃ l1 l2 l3 : str,
    split_address_equally s = Ok (line_dict l1 l2 l3)
    ∧ join (py " ") (filter (λ l, l ≠ []) [l1; l2; l3]) = normalize s.
Proof.
  intros Hpath.
  destruct (split_address_equally_shaped s) as (l1 & l2 & l3 & Hrun & Hshape).
  unfold by_segments in Hshape. rewrite bool_decide_false in Hshape by lia.
  exists l1, l2, l3. split; [done|].
  rewrite (shaped_join _ _ _ _ _ (words_nonempty _) Hshape).
  apply normalize_idemp.
Qed.

Lemma word_path_preserves_text_witness :
  ∃ l1 l2 l3 : str,
    split_address_equally (py "221B  Baker Street London NW1 6XE United Kingdom")
      = Ok (line_dict l1 l2 l3)
    ∧ join (py " ") (filter (λ l, l ≠ []) [l1; l2; l3])
      = normalize (py "221B  Baker Street London NW1 6XE United Kingdom").
Proof.
  apply (word_path_preserves_text
           (py "221B  Baker Street London NW1 6XE United Kingdom")).
  vm_compute. lia.
Defined.

(** ** Re-splitting the lines *)

Section Resplit.

Implicit Types (s cur x : str) (xs : list str).

Lemma split_sep_from_cons sep cur c s :
  split_sep_from sep 0 cur (c :: s) =
    if startswith sep (c :: s)
    then cur :: split_sep_from sep (length sep - 1) [] s
    else split_sep_from sep 0 (cur ++ [c]) s.
Proof. reflexivity. Qed.

Lemma startswith_not_comma c s :
  c ≠ 44%N → startswith (py ", ") (c :: s) = false.
Proof.
  intros Hc. change (((44 =? c)%N && startswith (py " ") s) = false).
  apply andb_false_intro1, N.eqb_neq. congruence.
Qed.

Lemma split_sep_run cur x s :
  comma_free x →
  split_sep_from (py ", ") 0 cur (x ++ s)
  = split_sep_from (py ", ") 0 (cur ++ x) s.
Proof.
  revert cur. induction x as [|c x IH]; intros cur Hx.
  - by rewrite app_nil_r.
  - apply Forall_cons in Hx as [Hc Hx].
    rewrite <-app_comm_cons, split_sep_from_cons, startswith_not_comma by done.
    rewrite IH by exact Hx. by rewrite <-app_assoc.
Qed.

Lemma split_sep_comma cur s :
  split_sep_from (py ", ") 0 cur (py ", " ++ s)
  = cur :: split_sep_from (py ", ") 0 [] s.
Proof. reflexivity. Qed.

(** Splitting a [", "]-joined list of comma-free strings gives the list
    back. *)
Lemma split_sep_join cur x xs :
  Forall comma_free (x :: xs) →
  split_sep_from (py ", ") 0 cur (join (py ", ") (x :: xs)) = (cur ++ x) :: xs.
Proof.
  revert cur x. induction xs as [|y xs IH]; intros cur x Hxs.
  - apply Forall_cons in Hxs as [Hx _]. rewrite join_singleton.
    rewrite <-(app_nil_r x) at 1. by rewrite split_sep_run.
  - apply Forall_cons in Hxs as [Hx Hxs].
    rewrite join_cons, split_sep_run, split_sep_comma, IH by done. done.
Qed.

End Resplit.

Section SegmentFacts.

Implicit Types (s cur address : str).

Lemma split_sep_join_all (xs : list str) :
  xs ≠ [] → Forall comma_free xs →
  split_sep_from (py ", ") 0 [] (join (py ", ") xs) = xs.
Proof.
  intros Hne Hxs. destruct xs as [|x xs]; [done|].
  by rewrite split_sep_join.
Qed.

Lemma re_split_from_delim_free cur s :
  Forall (λ c, is_delim c = false) cur →
  Forall (Forall (λ c, is_delim c = false)) (re_split_from cur s).
Proof.
  revert cur. induction s as [|c s IH]; intros cur Hcur; simpl.
  - by apply Forall_singleton.
  - destruct (is_delim c) eqn:Hc.
    + apply Forall_cons. split; [done|]. apply IH, Forall_nil_2.
    + apply IH, Forall_app. split; [done|]. by apply Forall_singleton.
Qed.

Lemma lstrip_Forall (P : N → Prop) s : Forall P s → Forall P (lstrip s).
Proof.
  induction 1 as [|c s Hc Hs IH]; simpl; [done|].
  destruct (isspace c); [done|]. by apply Forall_cons.
Qed.

Lemma strip_Forall (P : N → Prop) s : Forall P s → Forall P (strip s).
Proof.
  intros Hs. unfold strip, rstrip.
  by apply Forall_reverse, lstrip_Forall, Forall_reverse, lstrip_Forall.
Qed.

Lemma segments_comma_free address : Forall comma_free (segments address).
Proof.
  unfold segments. apply Forall_fmap, Forall_forall.
  intros part Hpart. apply list_elem_of_filter in Hpart as [_ Hpart].
  assert (Hfree : Forall (λ c, is_delim c = false) part).
  { pose proof (re_split_from_delim_free [] address (Forall_nil_2 _)) as Hall.
    rewrite Forall_forall in Hall. by apply Hall. }
  simpl. apply strip_Forall.
  eapply Forall_impl; [exact Hfree|]. by intros c Hc ->.
Qed.

(** Joining the three lines with [", "] and splitting again gives the
    items in order, followed by one empty string per empty line. *)
Lemma shaped_resplit (items : list str) (l1 l2 l3 : str) :
  Forall (λ w, w ≠ []) items → Forall comma_free items → items ≠ [] →
  shaped (py ", ") items l1 l2 l3 →
  ∃ k, k ≤ 2
    ∧ split_sep_from (py ", ") 0 [] (join (py ", ") [l1; l2; l3])
      = items ++ replicate k [].
Proof.
  intros Hne Hfree Hitems (g0 & g1 & g2 & -> & -> & -> & Hcat & H01 & H12).
  subst items.
  assert (N0 : g0 ≠ []).
  { intros E0. apply Hitems. by rewrite E0, (H01 E0), (H12 (H01 E0)). }
  assert (Hempty : comma_free []) by apply Forall_nil_2.
  destruct (decide (g1 = [])) as [E1|N1].
  { exists 2. split; [lia|]. subst g1. specialize (H12 eq_refl). subst g2.
    rewrite !app_nil_r in *.
    replace (join (py ", ") [join (py ", ") g0; join (py ", ") []; join (py ", ") []])
      with (join (py ", ") (g0 ++ [[]; []])) by (by rewrite join_app).
    apply split_sep_join_all; [by destruct g0|].
    apply Forall_app. split; [done|].
    by repeat (apply Forall_cons; split; [done|]). }
  destruct (decide (g2 = [])) as [E2|N2].
  { exists 1. split; [lia|]. subst g2. rewrite !app_nil_r in *.
    apply Forall_app in Hfree as [F0 F1].
    replace (join (py ", ") [join (py ", ") g0; join (py ", ") g1; join (py ", ") []])
      with (join (py ", ") (g0 ++ g1 ++ [[]])).
    2:{ rewrite (join_app _ g0), (join_app _ g1) by (done || by destruct g1).
        done. }
    rewrite <-app_assoc. apply split_sep_join_all; [by destruct g0|].
    repeat (apply Forall_app; split; [done|]).
    by apply Forall_singleton. }
  exists 0. split; [lia|]. rewrite app_nil_r.
  replace (join (py ", ") [join (py ", ") g0; join (py ", ") g1; join (py ", ") g2])
    with (join (py ", ") (g0 ++ g1 ++ g2)).
  2:{ rewrite (join_app _ g0), (join_app _ g1) by (done || by destruct g1).
      done. }
  apply split_sep_join_all; [by destruct g0|done].
Qed.

End SegmentFacts.

(** C4: with three or more segments the result is that of
    [distribute_parts], and the lines, joined with [", "] and split on
    [", "] again, give every segment once, in the original order, followed
    only by an empty string for each empty line. *)
Theorem segment_path_preserves_segments (s : str) :
  3 ≤ length (segments (normalize s)) →
  split_address_equally s = distribute_parts (segments (normalize s)) 3
  ∧ ∃ (l1 l2 l3 : str) (k : nat),
      split_address_equally s = Ok (line_dict l1 l2 l3)
      ∧ k ≤ 2
      ∧ split_sep (py ", ") (join (py ", ") [l1; l2; l3])
        = Ok (segments (normalize s) ++ replicate k []).
Proof.
  intros Hseg.
  assert (Hitems : segments (normalize s) ≠ []).
  { intros Hnil. rewrite Hnil in Hseg. simpl in Hseg. lia. }
  split.
  - unfold split_address_equally.
    destruct (truthy (normalize s)) eqn:Hn; simpl.
    + by rewrite bool_decide_true.
    + apply truthy_false in Hn. by rewrite Hn in Hitems.
  - destruct (split_address_equally_shaped s)
      as (l1 & l2 & l3 & Hrun & Hshape).
    unfold by_segments in Hshape. rewrite bool_decide_true in Hshape by done.
    destruct (shaped_resplit _ _ _ _ (segments_nonempty _)
                (segments_comma_free _) Hitems Hshape) as (k & Hk & Hsplit).
    exists l1, l2, l3, k. split_and!; [done|done|].
    unfold split_sep. by rewrite <-Hsplit.
Qed.

Lemma segment_path_preserves_segments_witness :
  split_address_equally
    (py "123 Main Street, Apartment 4B, Springfield, IL 62701, United States")
  = distribute_parts
      [py "123 Main Street"; py "Apartment 4B"; py "Springfield";
       py "IL 62701"; py "United States"] 3
  ∧ split_address_equally
      (py "123 Main Street, Apartment 4B, Springfield, IL 62701, United States")
    = Ok (line_dict (py "123 Main Street, Apartment 4B")
            (py "Springfield, IL 62701") (py "United States")).
Proof.
  split; [|by vm_compute].
  destruct (segment_path_preserves_segments
    (py "123 Main Street, Apartment 4B, Springfield, IL 62701, United States"))
    as [-> _]; [vm_compute; lia|].
  by vm_compute.
Defined.

(** C8: in the word loop, the remaining text of the advance guard is the
    text after the first position holding the current word's value: when
    the loop is at position [j], and [i] is the first position with the
    same value, the guard reads the words after [i]. *)
Theorem remaining_text_first_occurrence
    (words lines : list str) (target_length current_line i j : nat)
    (word line : str) :
  words !! j = Some word →
  words !! i = Some word → (∀ k, k < i → words !! k ≠ Some word) →
  current_line < 2 → lines !! current_line = Some line →
  let line' := if truthy line then line ++ py " " ++ word else word in
  let remaining_text := join (py " ") (drop (S i) words) in
  i ≤ j
  ∧ remaining_after words word = Ok (drop (S i) words)
  ∧ word_step words target_length (lines, current_line) word
    = Ok (<[current_line := line']> lines,
          if bool_decide (target_length ≤ length line')
             && bool_decide (10 * (2 - current_line) ≤ length remaining_text)
          then current_line + 1 else current_line).
Proof.
  intros Hj Hi Hfirst Hcur Hline line' remaining_text.
  assert (Hrest := remaining_after_first words word i Hi Hfirst).
  split_and!; [|done|].
  - destruct (decide (i ≤ j)) as [|Hlt]; [done|].
    exfalso. apply (Hfirst j); [lia|done].
  - unfold word_step. rewrite (getitem_lookup _ _ _ Hline), bind_Ok.
    replace (if truthy line
             then setitem lines current_line (line ++ py " " ++ word)
             else setitem lines current_line word)
      with (setitem lines current_line line')
      by (unfold line'; by destruct (truthy line)).
    rewrite (setitem_lookup _ _ _ _ Hline), bind_Ok.
    rewrite bool_decide_true, Hrest, bind_Ok by done. cbv beta zeta.
    rewrite (getitem_lookup _ _ line'), bind_Ok.
    2:{ apply list_lookup_insert_eq. by eapply lookup_lt_Some. }
    fold remaining_text.
    rewrite (bool_decide_true (0 < _)%Z) by lia.
    rewrite (bool_decide_ext
               ((3 - Z.of_nat current_line - 1) * 10
                ≤ Z.of_nat (length remaining_text))%Z
               (10 * (2 - current_line) ≤ length remaining_text)) by lia.
    by destruct (bool_decide (target_length ≤ _)), (bool_decide (10 * _ ≤ _)).
Qed.

Lemma remaining_text_first_occurrence_witness :
  word_step [py "Street"; py "Street"; py "Ave"; py "Blvd"; py "Road"] 9
    ([py "Street"; []; []], 0) (py "Street")
  = Ok ([py "Street Street"; []; []], 1).
Proof.
  destruct (remaining_text_first_occurrence
              [py "Street"; py "Street"; py "Ave"; py "Blvd"; py "Road"]
              [py "Street"; []; []] 9 0 0 1 (py "Street") (py "Street"))
    as (_ & _ & ->); [done|done|intros k Hk; lia|lia|done|].
  by vm_compute.
Defined.

(** The repeated word of ["Street Street Ave Blvd Road"] moves the loop to
    the second line: the guard at the second ["Street"] reads the twenty
    characters after the first one, not the thirteen after the second. *)
Example duplicate_word_output :
  split_address_equally (py "Street Street Ave Blvd Road")
  = Ok (line_dict (py "Street Street") (py "Ave Blvd Road") []).
Proof. by vm_compute. Qed.


(** ** The request handler *)

(** X1. The handler answers every request with the response model: the lines
    are those of [split_address_equally], [original_address] is the
    address as sent, and the [except] clause is never taken. *)
Theorem split_address_succeeds (input_data : Api.AddressInput) :
  ∃ l1 l2 l3 : str,
    split_address_equally (Api.address input_data)
    = Ok (line_dict l1 l2 l3)
    ∧ Api.split_address input_data
      = Api.Success
          {| Api.address_line_1 := l1;
             Api.address_line_2 := l2;
             Api.address_line_3 := l3;
             Api.original_address := Api.address input_data |}
    ∧ ∀ status_code detail,
        Api.split_address input_data
        ≠ Api.HTTPException status_code detail.
Proof.
  destruct (split_address_equally_shaped (Api.address input_data))
    as (l1 & l2 & l3 & Hrun & _).
  destruct (line_dict_lookup l1 l2 l3) as (H1 & H2 & H3).
  assert (Hok : Api.split_address input_data
                = Api.Success
                    {| Api.address_line_1 := l1;
                       Api.address_line_2 := l2;
                       Api.address_line_3 := l3;
                       Api.original_address := Api.address input_data |}).
  { unfold Api.split_address, Api.subscript. by rewrite Hrun, H1, H2, H3. }
  exists l1, l2, l3. split_and!; [done|done|].
  intros status_code detail. by rewrite Hok.
Qed.

(** ** [distribute_parts] with any number of lines *)

(** Runs the monadic steps whose outcome is known. *)
Ltac monad_run := cbn [mbind result_bind mret result_ret].

Section DistributeParts.

Implicit Types (parts : list str) (part : str).

Lemma for_each_raise {S A} (body : S → A → result S) st x l e :
  body st x = Raise e → for_each body st (x :: l) = Raise e.
Proof. intros Hx. simpl. by rewrite Hx. Qed.

Lemma for_each_cons {S A} (body : S → A → result S) st st' x l :
  body st x = Ok st' → for_each body st (x :: l) = for_each body st' l.
Proof. intros Hx. simpl. by rewrite Hx. Qed.

Lemma py_comma_length : length (py ", ") = 2.
Proof. reflexivity. Qed.

(** One round of the loop of [distribute_parts], in closed form. *)
Lemma part_step_run parts num_lines target_length
    (lines : list str) cur len (line : str) part (rest : list str) :
  lines !! cur = Some line → remaining_after parts part = Ok rest →
  let line' := if truthy line then line ++ py ", " ++ part else part in
  let len' := if truthy line then len + (length part + 2)
              else length part in
  part_step parts num_lines target_length (lines, cur, len) part
  = Ok (if bool_decide (Z.of_nat cur < Z.of_nat num_lines - 1)%Z
           && (truthy rest && bool_decide (target_length ≤ len'))
        then (<[cur:=line']> lines, cur + 1, 0)
        else (<[cur:=line']> lines, cur, len')).
Proof.
  intros Hline Hrest line' len'. unfold part_step.
  rewrite (getitem_lookup _ _ _ Hline). monad_run.
  rewrite !(setitem_lookup _ _ _ _ Hline).
  unfold line', len'. destruct (truthy line); monad_run.
  - case_bool_decide; [|done]. rewrite Hrest. monad_run.
    by destruct (truthy rest && _).
  - case_bool_decide; [|done]. rewrite Hrest. monad_run.
    by destruct (truthy rest && _).
Qed.

Lemma part_line_length (line part : str) len :
  len = length line →
  (if truthy line then len + (length part + 2) else length part)
  = length (if truthy line then line ++ py ", " ++ part else part).
Proof.
  intros ->. destruct line as [|x line]; [done|].
  cbn [truthy]. rewrite !length_app, py_comma_length. lia.
Qed.

(** The loop body keeps the invariant. *)
Lemma part_step_inv parts num_lines target_length st part :
  num_lines ≤ 3 → part ∈ parts → part_inv num_lines target_length st →
  ∃ st', part_step parts num_lines target_length st part = Ok st'
         ∧ part_inv num_lines target_length st'.
Proof.
  intros Hn Hpart (a & b & c & Hlines & Hcur & Hinv).
  destruct st as [[lines cur] len]. cbn [fst snd] in *. subst lines.
  destruct (remaining_after_elem_of parts part Hpart) as (rest & Hrest).
  destruct cur as [|[|[|cur]]]; [| | |done].
  - destruct Hinv as (Hlen & -> & ->).
    rewrite (part_step_run _ _ _ [a; []; []] 0 _ a _ rest eq_refl Hrest).
    rewrite (part_line_length a part len Hlen).
    set (line' := if truthy a then a ++ py ", " ++ part else part).
    destruct (_ && _) eqn:Hadv; eexists; (split; [reflexivity|]);
      exists line', [], []; cbn [fst snd]; [|by split_and!].
    apply andb_true_iff in Hadv as [Hlt%bool_decide_eq_true Hadv].
    apply andb_true_iff in Hadv as [_ Hge%bool_decide_eq_true].
    split_and!; (done || lia).
  - destruct Hinv as (Hlen & -> & Ha).
    rewrite (part_step_run _ _ _ [a; b; []] 1 _ b _ rest eq_refl Hrest).
    rewrite (part_line_length b part len Hlen).
    set (line' := if truthy b then b ++ py ", " ++ part else part).
    destruct (_ && _) eqn:Hadv; eexists; (split; [reflexivity|]);
      exists a, line', []; cbn [fst snd]; [|by split_and!].
    apply andb_true_iff in Hadv as [Hlt%bool_decide_eq_true Hadv].
    apply andb_true_iff in Hadv as [_ Hge%bool_decide_eq_true].
    split_and!; (done || lia).
  - destruct Hinv as (Hlen & Ha & Hb).
    rewrite (part_step_run _ _ _ [a; b; c] 2 _ c _ rest eq_refl Hrest).
    rewrite (part_line_length c part len Hlen).
    set (line' := if truthy c then c ++ py ", " ++ part else part).
    rewrite (bool_decide_false (_ < _)%Z) by lia.
    eexists. split; [reflexivity|].
    exists a, b, line'. cbn [fst snd]. by split_and!.
Qed.

Lemma part_loop_inv parts num_lines target_length rest st :
  num_lines ≤ 3 → rest ⊆ parts → part_inv num_lines target_length st →
  ∃ st', for_each (part_step parts num_lines target_length) st rest = Ok st'
         ∧ part_inv num_lines target_length st'.
Proof.
  intros Hn. revert st. induction rest as [|part rest IH]; intros st Hsub Hinv.
  - by exists st.
  - destruct (part_step_inv parts num_lines target_length st part)
      as (st1 & Hstep & Hinv1); [done|set_solver|done|].
    destruct (IH st1) as (st' & Hrun & Hinv'); [set_solver|done|].
    exists st'. by rewrite (for_each_cons _ _ _ _ _ Hstep).
Qed.

(** The loop branch of [distribute_parts]. *)
Lemma distribute_parts_loop parts num_lines :
  1 ≤ num_lines ≤ 3 → length parts ≠ num_lines →
  let target_length := sum_list (length <$> parts) / num_lines in
  ∃ l1 l2 l3 : str,
    distribute_parts parts num_lines = Ok (line_dict l1 l2 l3)
    ∧ (num_lines < 3 → l3 = []) ∧ (num_lines < 2 → l2 = [])
    ∧ (l2 ≠ [] → target_length ≤ length l1)
    ∧ (l3 ≠ [] → target_length ≤ length l2).
Proof.
  intros Hn Hlen target_length. unfold distribute_parts, floordiv.
  rewrite bool_decide_false, decide_False by lia. monad_run.
  destruct (part_loop_inv parts num_lines target_length parts
              ([[]; []; []], 0, 0)) as ([[lines cur] len] & Hrun & Hinv);
    [lia|done| |].
  { exists [], [], []. cbn [fst snd]. split_and!; (done || lia). }
  fold target_length. rewrite Hrun. monad_run.
  destruct Hinv as (a & b & c & Hlines & Hcur & Hinv).
  cbn [fst snd] in *. subst lines.
  exists a, b, c. split; [done|].
  destruct cur as [|[|[|cur]]]; [| | |done].
  - destruct Hinv as (_ & -> & ->). by split_and!.
  - destruct Hinv as (_ & -> & Ha). split_and!; (done || lia).
  - destruct Hinv as (_ & Ha & Hb). split_and!; (done || lia).
Qed.

Lemma assign_step_ok parts (lines : list str) i (x l : str) :
  parts !! i = Some x → lines !! i = Some l →
  assign_step parts lines i = Ok (<[i:=x]> lines).
Proof.
  intros Hx Hl. unfold assign_step.
  rewrite bool_decide_true by (by eapply lookup_lt_Some).
  rewrite (getitem_lookup _ _ _ Hx). monad_run.
  by rewrite (setitem_lookup _ _ _ _ Hl).
Qed.

Lemma assign_step_raise parts (lines : list str) i (x : str) :
  parts !! i = Some x → length lines ≤ i →
  assign_step parts lines i = Raise IndexError.
Proof.
  intros Hx Hl. unfold assign_step.
  rewrite bool_decide_true by (by eapply lookup_lt_Some).
  rewrite (getitem_lookup _ _ _ Hx). monad_run.
  unfold setitem. by rewrite decide_False by lia.
Qed.

End DistributeParts.

(** X2. [distribute_parts(parts, num_lines)] returns normally for every list
    of parts when [num_lines] is 1, 2 or 3, and fills only the first
    [num_lines] lines. *)
Theorem distribute_parts_up_to_three (parts : list str) (num_lines : nat) :
  1 ≤ num_lines ≤ 3 →
  ∃ l1 l2 l3 : str,
    distribute_parts parts num_lines = Ok (line_dict l1 l2 l3)
    ∧ (num_lines < 3 → l3 = []) ∧ (num_lines < 2 → l2 = []).
Proof.
  intros Hn. destruct (decide (length parts = num_lines)) as [Heq|Hne].
  - unfold distribute_parts. rewrite bool_decide_true by done.
    destruct parts as [|a [|b [|c [|? ?]]]]; simpl in Heq; subst num_lines;
      try lia.
    + exists a, [], []. split_and!; (done || lia).
    + exists a, b, []. split_and!; (done || lia).
    + exists a, b, c. split_and!; (done || lia).
  - destruct (distribute_parts_loop parts num_lines Hn Hne)
      as (l1 & l2 & l3 & Hrun & H3 & H2 & _).
    by exists l1, l2, l3.
Qed.

Lemma distribute_parts_up_to_three_witness :
  ∃ l1 l2 l3 : str,
    distribute_parts [py "Flat 301"; py "Krishna Towers"; py "MG Road"] 2
    = Ok (line_dict l1 l2 l3)
    ∧ (2 < 3 → l3 = []) ∧ (2 < 2 → l2 = []).
Proof.
  apply (distribute_parts_up_to_three
           [py "Flat 301"; py "Krishna Towers"; py "MG Road"] 2).
  lia.
Defined.

(** X3. When the number of parts differs from [num_lines], a later line is
    used only after the line before it has reached the target length,
    the floor of the summed part lengths over [num_lines]. *)
Theorem distribute_parts_threshold (parts : list str) (num_lines : nat) :
  1 ≤ num_lines ≤ 3 → length parts ≠ num_lines →
  ∃ l1 l2 l3 : str,
    distribute_parts parts num_lines = Ok (line_dict l1 l2 l3)
    ∧ (l2 ≠ [] → sum_list (length <$> parts) / num_lines ≤ length l1)
    ∧ (l3 ≠ [] → sum_list (length <$> parts) / num_lines ≤ length l2).
Proof.
  intros Hn Hne.
  destruct (distribute_parts_loop parts num_lines Hn Hne)
    as (l1 & l2 & l3 & Hrun & _ & _ & H12 & H23).
  by exists l1, l2, l3.
Qed.

Lemma distribute_parts_threshold_witness :
  ∃ l1 l2 l3 : str,
    distribute_parts
      [py "Plot No. 45"; py "Sector 12"; py "Near City Mall"; py "Gurgaon";
       py "Haryana 122001"] 3
    = Ok (line_dict l1 l2 l3)
    ∧ (l2 ≠ [] → 55 / 3 ≤ length l1)
    ∧ (l3 ≠ [] → 55 / 3 ≤ length l2).
Proof.
  apply (distribute_parts_threshold
           [py "Plot No. 45"; py "Sector 12"; py "Near City Mall";
            py "Gurgaon"; py "Haryana 122001"] 3).
  - lia.
  - simpl. lia.
Defined.

(** X4. Outside its intended use: with [num_lines = 0] and at least one part
    the target-length division raises [ZeroDivisionError]; with as many
    parts as lines and more than three lines, the fourth assignment
    raises [IndexError]. *)
Theorem distribute_parts_raises (parts : list str) (num_lines : nat) :
  (num_lines = 0 → parts ≠ [] →
   distribute_parts parts num_lines = Raise ZeroDivisionError)
  ∧ (4 ≤ num_lines → length parts = num_lines →
     distribute_parts parts num_lines = Raise IndexError).
Proof.
  split.
  - intros -> Hparts. unfold distribute_parts, floordiv.
    rewrite bool_decide_false by (by destruct parts). done.
  - intros Hn Hlen. unfold distribute_parts.
    rewrite bool_decide_true by done.
    destruct parts as [|a [|b [|c [|d parts]]]]; simpl in Hlen; try lia.
    subst num_lines.
    change (seq 0 (S (S (S (S (length parts))))))
      with (0 :: 1 :: 2 :: 3 :: seq 4 (length parts)).
    set (ps := a :: b :: c :: d :: parts).
    rewrite (for_each_cons _ _ [a; []; []])
      by exact (assign_step_ok ps [[]; []; []] 0 a [] eq_refl eq_refl).
    rewrite (for_each_cons _ _ [a; b; []])
      by exact (assign_step_ok ps [a; []; []] 1 b [] eq_refl eq_refl).
    rewrite (for_each_cons _ _ [a; b; c])
      by exact (assign_step_ok ps [a; b; []] 2 c [] eq_refl eq_refl).
    rewrite (for_each_raise _ _ _ _ IndexError)
      by (apply (assign_step_raise ps [a; b; c] 3 d eq_refl); simpl; lia).
    done.
Qed.

Lemma distribute_parts_raises_witness :
  distribute_parts [py "A"] 0 = Raise ZeroDivisionError
  ∧ distribute_parts [py "A"; py "B"; py "C"; py "D"] 4 = Raise IndexError.
Proof.
  split.
  - by apply (distribute_parts_raises [py "A"] 0).
  - apply (distribute_parts_raises [py "A"; py "B"; py "C"; py "D"] 4).
    + lia.
    + done.
Defined.


(** ** The word loop in detail *)

Section WordLoop.

Implicit Types (words seen rest : list str) (word w : str).

Lemma py_space_length : length (py " ") = 1.
Proof. reflexivity. Qed.

(** One round of the word loop, in closed form. *)
Lemma word_step_run words target_length (lines : list str) cur
    (line : str) word i :
  lines !! cur = Some line →
  words !! i = Some word → (∀ k, k < i → words !! k ≠ Some word) →
  let line' := if truthy line then line ++ py " " ++ word else word in
  let remaining_text := join (py " ") (drop (S i) words) in
  word_step words target_length (lines, cur) word
  = Ok (<[cur:=line']> lines,
        if bool_decide (cur < 2)
           && (bool_decide (target_length ≤ length line')
               && bool_decide ((2 - cur) * 10 ≤ length remaining_text))
        then cur + 1 else cur).
Proof.
  intros Hline Hi Hfirst line' remaining_text. unfold word_step.
  rewrite (getitem_lookup _ _ _ Hline). monad_run.
  replace (if truthy line
           then setitem lines cur (line ++ py " " ++ word)
           else setitem lines cur word)
    with (setitem lines cur line')
    by (unfold line'; by destruct (truthy line)).
  rewrite (setitem_lookup _ _ _ _ Hline). monad_run.
  case_bool_decide as Hcur; [|done].
  rewrite (remaining_after_first words word i Hi Hfirst). monad_run.
  rewrite (getitem_lookup _ _ line').
  2:{ apply list_lookup_insert_eq. by eapply lookup_lt_Some. }
  monad_run. fold remaining_text.
  rewrite (bool_decide_true (0 < _)%Z) by lia.
  rewrite (bool_decide_ext
             ((3 - Z.of_nat cur - 1) * 10
              ≤ Z.of_nat (length remaining_text))%Z
             ((2 - cur) * 10 ≤ length remaining_text)) by lia.
  by destruct (bool_decide (target_length ≤ _)), (bool_decide (_ * 10 ≤ _)).
Qed.

(** The text after a word is shorter than the whole text by the word and
    a separator. *)
Lemma join_drop_length sep (l : list str) i w :
  l !! i = Some w → drop (S i) l ≠ [] →
  length (join sep (drop (S i) l)) + length w + length sep
  ≤ length (join sep l).
Proof.
  revert i. induction l as [|a l IH]; intros i Hi Hrest; [done|].
  destruct l as [|b l]; [by destruct i|].
  rewrite join_cons, !length_app.
  destruct i as [|i].
  - injection Hi as ->. cbn [drop]. lia.
  - specialize (IH i Hi Hrest). cbn [drop] in *. lia.
Qed.

Lemma join_snoc_word (g : list str) w :
  Forall (λ x, x ≠ []) g →
  (if truthy (join (py " ") g) then join (py " ") g ++ py " " ++ w else w)
  = join (py " ") (g ++ [w]).
Proof. intros Hg. by rewrite join_truthy, join_snoc. Qed.

(** The loop body keeps the invariant. *)
Lemma word_step_inv words target_length seen w rest st :
  words = seen ++ w :: rest → Forall (λ x, x ≠ []) words →
  word_inv words target_length seen st →
  ∃ st', word_step words target_length st w = Ok st'
         ∧ word_inv words target_length (seen ++ [w]) st'.
Proof.
  intros Hwords Hne (g0 & g1 & g2 & Hlines & Hseen & Hinv).
  destruct st as [lines cur]. unfold word_inv, word_groups in *.
  cbn [fst snd] in *. subst lines.
  assert (Hw : words !! length seen = Some w)
    by (subst words; apply list_lookup_middle; done).
  destruct (first_occurrence words w) as (i & Hi & Hfirst);
    [by eapply list_elem_of_lookup_2|].
  assert (Hnodup : NoDup words → i = length seen)
    by (intros Hnd; by eapply NoDup_lookup).
  assert (Hgs : Forall (λ x, x ≠ []) (g0 ++ g1 ++ g2)).
  { rewrite Hseen. subst words. by apply Forall_app in Hne as [? _]. }
  apply Forall_app in Hgs as [Hg0 Hgs]. apply Forall_app in Hgs as [Hg1 Hg2].
  assert (Hwne : w ≠ []).
  { rewrite Forall_forall in Hne. apply Hne.
    by eapply list_elem_of_lookup_2. }
  assert (Hsuffix : ∀ n, 0 < n →
            n ≤ length (join (py " ") (drop (S i) words)) →
            n + 2 ≤ length (join (py " ") words)).
  { intros n Hn Hlen.
    assert (drop (S i) words ≠ []) by (intros E; rewrite E in Hlen;
      rewrite join_nil in Hlen; simpl in Hlen; lia).
    pose proof (join_drop_length (py " ") words i w Hi) as Hd.
    rewrite py_space_length in Hd. specialize (Hd ltac:(done)).
    destruct w; [done|]. simpl in Hd. lia. }
  destruct cur as [|[|[|cur]]]; [| | |done].
  - destruct Hinv as (-> & ->). rewrite !app_nil_r in Hseen. subst g0.
    rewrite (word_step_run words target_length
               [join (py " ") seen; join (py " ") []; join (py " ") []]
               0 (join (py " ") seen) w i eq_refl Hi Hfirst).
    rewrite (join_snoc_word seen w Hg0).
    destruct (_ && _) eqn:Hadv; eexists; (split; [reflexivity|]);
      exists (seen ++ [w]), [], []; cbn [fst snd Nat.add];
      rewrite ?app_nil_r; [|by split_and!].
    apply andb_true_iff in Hadv as [_ Hadv].
    apply andb_true_iff in Hadv
      as [Hge%bool_decide_eq_true Hrem%bool_decide_eq_true].
    split_and!; try done.
    + by destruct seen.
    + apply (Hsuffix 20); [lia|]. simpl in Hrem. lia.
    + split; [done|]. intros Hnd. rewrite (Hnodup Hnd) in Hrem.
      rewrite app_nil_l, length_app. simpl in *.
      by replace (length seen + 1) with (S (length seen)) by lia.
  - destruct Hinv as (N0 & -> & Hlong & Hleft0).
    rewrite app_nil_r in Hseen.
    rewrite (word_step_run words target_length
               [join (py " ") g0; join (py " ") g1; join (py " ") []]
               1 (join (py " ") g1) w i eq_refl Hi Hfirst).
    rewrite (join_snoc_word g1 w Hg1).
    destruct (_ && _) eqn:Hadv; eexists; (split; [reflexivity|]);
      exists g0, (g1 ++ [w]), []; cbn [fst snd Nat.add];
      rewrite ?app_nil_r; (split; [done|]);
      (split; [by rewrite app_assoc, Hseen|]); [|by split_and!].
    apply andb_true_iff in Hadv as [_ Hadv].
    apply andb_true_iff in Hadv
      as [Hge%bool_decide_eq_true Hrem%bool_decide_eq_true].
    split_and!; try done.
    + by destruct g1.
    + split; [done|]. intros Hnd. rewrite (Hnodup Hnd) in Hrem.
      rewrite app_assoc, Hseen, length_app. simpl in *.
      by replace (length seen + 1) with (S (length seen)) by lia.
  - destruct Hinv as (N0 & N1 & Hlong & Hleft0 & Hleft1).
    rewrite (word_step_run words target_length
               [join (py " ") g0; join (py " ") g1; join (py " ") g2]
               2 (join (py " ") g2) w i eq_refl Hi Hfirst).
    rewrite (join_snoc_word g2 w Hg2).
    rewrite (bool_decide_false (2 < 2)) by lia.
    eexists. split; [reflexivity|].
    exists g0, g1, (g2 ++ [w]). cbn [fst snd].
    split_and!; try done. by rewrite !app_assoc, <-(app_assoc g0), Hseen.
Qed.

Lemma word_loop_inv words target_length rest seen st :
  words = seen ++ rest → Forall (λ x, x ≠ []) words →
  word_inv words target_length seen st →
  ∃ st', for_each (word_step words target_length) st rest = Ok st'
         ∧ word_inv words target_length words st'.
Proof.
  intros Hwords Hne. revert seen st Hwords.
  induction rest as [|w rest IH]; intros seen st Hwords Hinv.
  - exists st. rewrite app_nil_r in Hwords. by subst seen.
  - destruct (word_step_inv words target_length seen w rest st)
      as (st1 & Hstep & Hinv1); [done..|].
    destruct (IH (seen ++ [w]) st1) as (st' & Hrun & Hinv');
      [by rewrite <-app_assoc|done|].
    exists st'. by rewrite (for_each_cons _ _ _ _ _ Hstep).
Qed.

End WordLoop.

(** The word loop of [split_address_equally] on inputs with at least three
    words and fewer than three segments. *)
Lemma word_path_inv (s : str) :
  length (segments (normalize s)) < 3 → 3 ≤ length (split (normalize s)) →
  ∃ (g0 g1 g2 : list str) (cur : nat),
    split_address_equally s
    = Ok (line_dict (join (py " ") g0) (join (py " ") g1)
            (join (py " ") g2))
    ∧ g0 ++ g1 ++ g2 = split (normalize s)
    ∧ word_groups (split (normalize s)) (length (normalize s) / 3)
        g0 g1 g2 cur.
Proof.
  intros Hseg Hwords.
  destruct (word_loop_inv (split (normalize s)) (length (normalize s) / 3)
              (split (normalize s)) [] ([[]; []; []], 0))
    as ([lines cur] & Hrun & (g0 & g1 & g2 & Hlines & Hcat & Hinv));
    [done|apply words_nonempty| |].
  { by exists [], [], []. }
  cbn [fst snd] in *. subst lines. exists g0, g1, g2, cur.
  split_and!; [|done|done]. unfold split_address_equally.
  destruct (truthy (normalize s)) eqn:Hn; cbn [negb].
  - rewrite !bool_decide_false by lia. by rewrite Hrun.
  - apply truthy_false in Hn. rewrite Hn in Hwords. simpl in Hwords. lia.
Qed.

Lemma join_words_normalize (s : str) :
  join (py " ") (split (normalize s)) = normalize s.
Proof. apply normalize_idemp. Qed.

(** X5. A short address is not split: with at least three words, fewer than
    three segments and at most 21 characters after normalization, the
    whole text is on the first line. *)
Theorem short_address_on_first_line (s : str) :
  length (segments (normalize s)) < 3 → 3 ≤ length (split (normalize s)) →
  length (normalize s) ≤ 21 →
  split_address_equally s = Ok (line_dict (normalize s) [] []).
Proof.
  intros Hseg Hwords Hshort.
  destruct (word_path_inv s Hseg Hwords)
    as (g0 & g1 & g2 & cur & -> & Hcat & Hinv).
  unfold word_groups in Hinv. rewrite join_words_normalize in Hinv.
  destruct cur as [|[|[|cur]]]; [| | |done].
  - destruct Hinv as (-> & ->). rewrite !app_nil_r in Hcat. subst g0.
    by rewrite join_words_normalize.
  - destruct Hinv as (_ & _ & Hlong & _). lia.
  - destruct Hinv as (_ & _ & Hlong & _). lia.
Qed.

Lemma short_address_on_first_line_witness :
  split_address_equally (py "123  Short St ")
  = Ok (line_dict (normalize (py "123  Short St ")) [] []).
Proof.
  apply (short_address_on_first_line (py "123  Short St "));
    vm_compute; lia.
Defined.

(** X6. In the word loop a later line is used only after the line before it
    has reached the target length, a third of the normalized length; and
    the second line is used only for texts of 22 characters or more. *)
Theorem word_lines_reach_target (s : str) :
  length (segments (normalize s)) < 3 → 3 ≤ length (split (normalize s)) →
  ∃ l1 l2 l3 : str,
    split_address_equally s = Ok (line_dict l1 l2 l3)
    ∧ (l2 ≠ [] → length (normalize s) / 3 ≤ length l1
                 ∧ 22 ≤ length (normalize s))
    ∧ (l3 ≠ [] → length (normalize s) / 3 ≤ length l2).
Proof.
  intros Hseg Hwords.
  destruct (word_path_inv s Hseg Hwords)
    as (g0 & g1 & g2 & cur & Hrun & Hcat & Hinv).
  unfold word_groups in Hinv. rewrite join_words_normalize in Hinv.
  eexists _, _, _. split; [exact Hrun|].
  destruct cur as [|[|[|cur]]]; [| | |done].
  - by destruct Hinv as (-> & ->).
  - destruct Hinv as (_ & -> & Hlong & Hleft & _). by split.
  - destruct Hinv as (_ & _ & Hlong & (Hleft0 & _) & (Hleft1 & _)).
    by split.
Qed.

Lemma word_lines_reach_target_witness :
  ∃ l1 l2 l3 : str,
    split_address_equally
      (py "221B Baker Street London NW1 6XE United Kingdom")
    = Ok (line_dict l1 l2 l3)
    ∧ (l2 ≠ [] → 47 / 3 ≤ length l1 ∧ 22 ≤ 47)
    ∧ (l3 ≠ [] → 47 / 3 ≤ length l2).
Proof.
  apply (word_lines_reach_target
           (py "221B Baker Street London NW1 6XE United Kingdom"));
    vm_compute; lia.
Defined.

(** X7. When no word is repeated, the guard of the word loop keeps its
    promise: a non-empty second line comes with at least 20 characters of
    text for lines two and three, and a non-empty third line has at least
    10 characters. *)
Theorem distinct_words_leave_text (s : str) :
  NoDup (split (normalize s)) →
  length (segments (normalize s)) < 3 → 3 ≤ length (split (normalize s)) →
  ∃ l1 l2 l3 : str,
    split_address_equally s = Ok (line_dict l1 l2 l3)
    ∧ (l2 ≠ [] →
       20 ≤ length (join (py " ") (filter (λ l, l ≠ []) [l2; l3])))
    ∧ (l3 ≠ [] → 10 ≤ length l3).
Proof.
  intros Hnd Hseg Hwords.
  destruct (word_path_inv s Hseg Hwords)
    as (h0 & h1 & h2 & cur & Hrun & Hcat & Hinv).
  unfold word_groups in Hinv.
  eexists _, _, _. split; [exact Hrun|].
  assert (Hne : Forall (λ w, w ≠ []) (h0 ++ h1 ++ h2))
    by (rewrite Hcat; apply words_nonempty).
  apply Forall_app in Hne as [Hne0 Hne]. apply Forall_app in Hne as [Hne1 Hne2].
  destruct cur as [|[|[|cur]]]; [| | |done].
  - by destruct Hinv as (-> & ->).
  - destruct Hinv as (_ & -> & _ & (_ & Hleft)).
    specialize (Hleft Hnd). rewrite <-Hcat, app_nil_l, app_nil_r in Hleft.
    rewrite drop_app_length in Hleft.
    split; [|done]. intros Hl2.
    rewrite filter_cons_True by done.
    by rewrite filter_cons_False by (by intros ?).
  - destruct Hinv as (_ & N1 & _ & (_ & Hleft0) & (_ & Hleft1)).
    specialize (Hleft0 Hnd). specialize (Hleft1 Hnd).
    rewrite <-Hcat, app_nil_l, drop_app_length in Hleft0.
    rewrite <-Hcat, app_assoc, drop_app_length in Hleft1.
    assert (N2 : h2 ≠ []).
    { intros ->. rewrite join_nil in Hleft1. simpl in Hleft1. lia. }
    split; [|done]. intros _.
    rewrite !filter_cons_True, filter_nil;
      [|intros E; apply N2; by eapply join_nil_inv
       |intros E; apply N1; by eapply join_nil_inv].
    by rewrite join_cons, join_singleton, <-join_app.
Qed.

Lemma distinct_words_leave_text_witness :
  ∃ l1 l2 l3 : str,
    split_address_equally
      (py "221B Baker Street London NW1 6XE United Kingdom")
    = Ok (line_dict l1 l2 l3)
    ∧ (l2 ≠ [] →
       20 ≤ length (join (py " ") (filter (λ l, l ≠ []) [l2; l3])))
    ∧ (l3 ≠ [] → 10 ≤ length l3).
Proof.
  apply (distinct_words_leave_text
           (py "221B Baker Street London NW1 6XE United Kingdom")).
  - apply (bool_decide_unpack _). by vm_compute.
  - vm_compute. lia.
  - vm_compute. lia.
Defined.

(** ** Whitespace of the output lines *)

Section Trimmed.

Implicit Types (s x y sep : str) (g : list str).

Lemma rtrimmed_cons c s : s ≠ [] → rtrimmed (c :: s) ↔ rtrimmed s.
Proof. by destruct s. Qed.

Lemma rtrimmed_app x y : y ≠ [] → rtrimmed y → rtrimmed (x ++ y).
Proof.
  intros Hne Hy. induction x as [|a x IH]; [done|].
  rewrite <-app_comm_cons. apply rtrimmed_cons; [by destruct x|done].
Qed.

Lemma ltrimmed_app x y : x ≠ [] → ltrimmed x → ltrimmed (x ++ y).
Proof. by destruct x. Qed.

Lemma rtrimmed_nonspace s :
  Forall (λ c, isspace c = false) s → rtrimmed s.
Proof.
  induction 1 as [|c s Hc Hs IH]; [done|].
  destruct s; [done|]. by apply rtrimmed_cons.
Qed.

Lemma word_tidy s : is_word s → s ≠ [] ∧ ltrimmed s ∧ rtrimmed s.
Proof.
  intros [Hne Hs]. split_and!; [done| |by apply rtrimmed_nonspace].
  destruct s; [done|]. by apply Forall_cons in Hs as [? _].
Qed.

Lemma ltrimmed_strip s : ltrimmed (strip s).
Proof.
  unfold strip.
  destruct (lstrip_head s) as [->|(c & t & -> & Hc)]; [done|].
  by rewrite rstrip_cons.
Qed.

Lemma rtrimmed_strip s : rtrimmed (strip s).
Proof. apply rtrimmed_rstrip. Qed.

Lemma rtrimmed_inv s :
  rtrimmed s → s = [] ∨ ∃ t c, s = t ++ [c] ∧ isspace c = false.
Proof.
  induction s as [|a s IH]; intros Hs; [by left|]. right.
  destruct s as [|b s]; [by exists [], a|].
  destruct IH as [|(t & c & -> & Hc)]; [by apply (rtrimmed_cons a)|done|].
  by exists (a :: t), c.
Qed.

Lemma strip_tidy s : ltrimmed s → rtrimmed s → strip s = s.
Proof.
  intros Hl Hr. unfold strip.
  assert (lstrip s = s) as -> by (destruct s; simpl in *; by rewrite ?Hl).
  destruct (rtrimmed_inv s Hr) as [->|(t & c & -> & Hc)]; [done|].
  unfold rstrip. rewrite reverse_snoc. simpl. rewrite Hc.
  by rewrite reverse_cons, reverse_involutive.
Qed.

(** Joining trimmed, non-empty strings gives a trimmed string, whatever
    the separator. *)
Lemma join_tidy sep g :
  Forall (λ x, x ≠ [] ∧ ltrimmed x ∧ rtrimmed x) g →
  (g ≠ [] → join sep g ≠ []) ∧ ltrimmed (join sep g) ∧ rtrimmed (join sep g).
Proof.
  induction 1 as [|x g (Hne & Hl & Hr) Hg (IHne & IHl & IHr)]; [done|].
  destruct g as [|y g].
  - by rewrite join_singleton.
  - rewrite join_cons. split_and!.
    + intros _. by destruct x.
    + by apply ltrimmed_app.
    + apply rtrimmed_app; [|apply rtrimmed_app; [|done]].
      * intros [_ E]%app_eq_nil. by apply IHne.
      * by apply IHne.
Qed.

Lemma shaped_stripped sep (items : list str) (l1 l2 l3 : str) :
  Forall (λ x, x ≠ [] ∧ ltrimmed x ∧ rtrimmed x) items →
  shaped sep items l1 l2 l3 →
  strip l1 = l1 ∧ strip l2 = l2 ∧ strip l3 = l3.
Proof.
  intros Hitems (g0 & g1 & g2 & -> & -> & -> & Hcat & _).
  rewrite <-Hcat in Hitems.
  apply Forall_app in Hitems as [H0 Hitems].
  apply Forall_app in Hitems as [H1 H2].
  split_and!; apply strip_tidy; by apply join_tidy.
Qed.

Lemma segments_tidy s :
  Forall (λ x, x ≠ [] ∧ ltrimmed x ∧ rtrimmed x) (segments s).
Proof.
  pose proof (segments_nonempty s) as Hne. unfold segments in *.
  rewrite Forall_fmap in *. eapply Forall_impl; [exact Hne|].
  intros part Hpart. simpl in *.
  split_and!; [done|apply ltrimmed_strip|apply rtrimmed_strip].
Qed.

Lemma words_tidy s :
  Forall (λ x, x ≠ [] ∧ ltrimmed x ∧ rtrimmed x) (split s).
Proof. eapply Forall_impl; [apply split_words|]. apply word_tidy. Qed.

End Trimmed.

(** X8. No output line begins or ends with whitespace: stripping a line
    leaves it unchanged. *)
Theorem lines_are_stripped (s : str) :
  ∃ l1 l2 l3 : str,
    split_address_equally s = Ok (line_dict l1 l2 l3)
    ∧ strip l1 = l1 ∧ strip l2 = l2 ∧ strip l3 = l3.
Proof.
  destruct (split_address_equally_shaped s) as (l1 & l2 & l3 & Hrun & Hshape).
  exists l1, l2, l3. split; [done|].
  destruct (by_segments (normalize s)).
  - eapply shaped_stripped; [apply segments_tidy|done].
  - eapply shaped_stripped; [apply words_tidy|done].
Qed.

(** ** Delimiters on the segment path *)

Section Delimiters.

Implicit Types (s cur : str).

Lemma segment_path_run s :
  3 ≤ length (segments (normalize s)) →
  split_address_equally s = distribute_parts (segments (normalize s)) 3.
Proof.
  intros Hseg. unfold split_address_equally.
  destruct (truthy (normalize s)) eqn:Hn; cbn [negb].
  - by rewrite bool_decide_true.
  - apply truthy_false in Hn. rewrite Hn in Hseg. simpl in Hseg. lia.
Qed.

Lemma segments_delim_free s :
  Forall (Forall (λ c, is_delim c = false)) (segments s).
Proof.
  unfold segments. apply Forall_fmap, Forall_forall.
  intros part Hpart. apply list_elem_of_filter in Hpart as [_ Hpart].
  pose proof (re_split_from_delim_free [] s (Forall_nil_2 _)) as Hall.
  rewrite Forall_forall in Hall. by apply strip_Forall, Hall.
Qed.

Lemma join_Forall (P : N → Prop) sep (g : list str) :
  Forall P sep → Forall (Forall P) g → Forall P (join sep g).
Proof.
  intros Hsep. induction 1 as [|x g Hx Hg IH]; [done|].
  destruct g; [done|]. rewrite join_cons.
  by repeat (apply Forall_app; split).
Qed.

Lemma swap_isspace c :
  isspace (if (c =? 59)%N then 44%N else c) = isspace c.
Proof. destruct (N.eqb_spec c 59) as [->|]; done. Qed.

Lemma swap_is_delim c :
  is_delim (if (c =? 59)%N then 44%N else c) = is_delim c.
Proof. destruct (N.eqb_spec c 59) as [->|]; done. Qed.

Lemma swap_not_delim c :
  is_delim c = false → (if (c =? 59)%N then 44%N else c) = c.
Proof. destruct (N.eqb_spec c 59) as [->|]; done. Qed.

Lemma split_from_swap cur s :
  split_from (commas_for_semicolons cur) (commas_for_semicolons s)
  = commas_for_semicolons <$> split_from cur s.
Proof.
  assert (Hflush : ∀ cur,
    (if truthy (commas_for_semicolons cur)
     then [commas_for_semicolons cur] else [])
    = commas_for_semicolons <$> (if truthy cur then [cur] else []))
    by (by intros []).
  revert cur. induction s as [|c s IH]; intros cur; [apply Hflush|].
  cbn [commas_for_semicolons fmap list_fmap split_from].
  rewrite swap_isspace. destruct (isspace c).
  - rewrite fmap_app, <-Hflush. f_equal. apply (IH []).
  - rewrite <-IH. unfold commas_for_semicolons. by rewrite fmap_app.
Qed.

Lemma join_swap (ws : list str) :
  join (py " ") (commas_for_semicolons <$> ws)
  = commas_for_semicolons (join (py " ") ws).
Proof.
  induction ws as [|w ws IH]; [done|].
  destruct ws as [|w' ws]; [done|].
  rewrite fmap_cons, fmap_cons, join_cons, <-fmap_cons, IH, join_cons.
  unfold commas_for_semicolons. by rewrite !fmap_app.
Qed.

Lemma normalize_swap s :
  normalize (commas_for_semicolons s) = commas_for_semicolons (normalize s).
Proof.
  unfold normalize, split.
  by rewrite <-join_swap, <-split_from_swap.
Qed.

Lemma re_split_from_swap cur s :
  re_split_from cur (commas_for_semicolons s) = re_split_from cur s.
Proof.
  revert cur. induction s as [|c s IH]; intros cur; [done|].
  cbn [commas_for_semicolons fmap list_fmap re_split_from].
  rewrite swap_is_delim. destruct (is_delim c) eqn:Hc.
  - f_equal. apply IH.
  - rewrite swap_not_delim by done. apply IH.
Qed.

Lemma segments_swap s :
  segments (commas_for_semicolons s) = segments s.
Proof. unfold segments, re_split. by rewrite re_split_from_swap. Qed.

End Delimiters.

(** X9. With three or more segments, the kind of delimiter does not matter:
    writing every semicolon of the input as a comma gives the same
    lines. *)
Theorem semicolons_as_commas (s : str) :
  3 ≤ length (segments (normalize s)) →
  split_address_equally (commas_for_semicolons s) = split_address_equally s.
Proof.
  intros Hseg.
  assert (Hsegs : segments (normalize (commas_for_semicolons s))
                  = segments (normalize s))
    by (by rewrite normalize_swap, segments_swap).
  rewrite (segment_path_run (commas_for_semicolons s))
    by (by rewrite Hsegs).
  rewrite (segment_path_run s) by done. by rewrite Hsegs.
Qed.

Lemma semicolons_as_commas_witness :
  split_address_equally (py "Flat 301, Krishna Towers, MG Road, Bangalore")
  = split_address_equally (py "Flat 301; Krishna Towers, MG Road; Bangalore").
Proof.
  apply (semicolons_as_commas
           (py "Flat 301; Krishna Towers, MG Road; Bangalore")).
  vm_compute. lia.
Defined.

(** X10. With three or more segments, no output line contains a semicolon:
    the segments are free of delimiters and are joined with a comma and a
    space. *)
Theorem segment_lines_without_semicolon (s : str) :
  3 ≤ length (segments (normalize s)) →
  ∃ l1 l2 l3 : str,
    split_address_equally s = Ok (line_dict l1 l2 l3)
    ∧ Forall (λ c, c ≠ 59%N) (l1 ++ l2 ++ l3).
Proof.
  intros Hseg.
  destruct (split_address_equally_shaped s) as (l1 & l2 & l3 & Hrun & Hshape).
  unfold by_segments in Hshape. rewrite bool_decide_true in Hshape by done.
  exists l1, l2, l3. split; [done|].
  destruct Hshape as (g0 & g1 & g2 & -> & -> & -> & Hcat & _).
  assert (Hfree : Forall (Forall (λ c, c ≠ 59%N)) (g0 ++ g1 ++ g2)).
  { rewrite Hcat. eapply Forall_impl; [apply segments_delim_free|].
    intros part Hpart. eapply Forall_impl; [exact Hpart|].
    by intros c Hc ->. }
  apply Forall_app in Hfree as [H0 Hfree].
  apply Forall_app in Hfree as [H1 H2].
  assert (Hsep : Forall (λ c, c ≠ 59%N) (py ", "))
    by (by repeat (apply Forall_cons; split; [done|])).
  repeat (apply Forall_app; split); by apply join_Forall.
Qed.

Lemma segment_lines_without_semicolon_witness :
  ∃ l1 l2 l3 : str,
    split_address_equally
      (py "Flat 301; Krishna Towers; MG Road; Bangalore 560001")
    = Ok (line_dict l1 l2 l3)
    ∧ Forall (λ c, c ≠ 59%N) (l1 ++ l2 ++ l3).
Proof.
  apply (segment_lines_without_semicolon
           (py "Flat 301; Krishna Towers; MG Road; Bangalore 560001")).
  vm_compute. lia.
Defined.


(** ** Sending the lines back in *)

Section RoundTrip.

Implicit Types (s t x y cur : str) (g : list str) (b : bool).

Lemma collapse_runs_spaced b s : spaced b s → collapse_runs b s = s.
Proof.
  revert b. induction s as [|c s IH]; intros b Hs; [done|].
  simpl in *. destruct (isspace c).
  - destruct Hs as (-> & -> & Hs). by rewrite IH.
  - by rewrite IH.
Qed.

Lemma spaced_collapse_runs b s : spaced b (collapse_runs b s).
Proof.
  revert b. induction s as [|c s IH]; intros b; [done|].
  simpl. destruct (isspace c) eqn:Hc.
  - destruct b; [apply IH|]. simpl. split_and!; [done|done|apply IH].
  - simpl. rewrite Hc. apply IH.
Qed.

Lemma spaced_normalize s : spaced false (normalize s).
Proof. rewrite normalize_refines. apply spaced_collapse_runs. Qed.

Lemma spaced_weaken b s : spaced b s → spaced false s.
Proof.
  destruct s as [|c s]; [done|]. simpl. destruct (isspace c); [|done].
  by intros (-> & _ & Hs).
Qed.

Lemma spaced_app_inv b x y : spaced b (x ++ y) → spaced b x.
Proof.
  revert b. induction x as [|c x IH]; intros b; [done|].
  simpl. destruct (isspace c); [|apply IH].
  intros (-> & -> & Hs). split_and!; [done|done|by eapply IH].
Qed.

Lemma spaced_suffix b x c y :
  isspace c = false → spaced b (x ++ c :: y) → spaced false y.
Proof.
  intros Hc. revert b. induction x as [|a x IH]; intros b; simpl.
  - by rewrite Hc.
  - destruct (isspace a); [|apply IH]. intros (_ & _ & Hs). by eapply IH.
Qed.

Lemma is_delim_not_space c : is_delim c = true → isspace c = false.
Proof.
  unfold is_delim. intros [->%N.eqb_eq| ->%N.eqb_eq]%orb_true_iff; done.
Qed.

Lemma re_split_from_spaced cur s :
  spaced false (cur ++ s) → Forall (spaced false) (re_split_from cur s).
Proof.
  revert cur. induction s as [|c s IH]; intros cur Hs; simpl.
  - apply Forall_singleton. by rewrite app_nil_r in Hs.
  - destruct (is_delim c) eqn:Hc.
    + apply Forall_cons. split; [by eapply spaced_app_inv|].
      apply IH. eapply spaced_suffix; [|exact Hs].
      by apply is_delim_not_space.
    + apply IH. by rewrite <-app_assoc.
Qed.

Lemma lstrip_spaced b s : spaced b s → spaced false (lstrip s).
Proof.
  revert b. induction s as [|c s IH]; intros b; [done|].
  simpl. destruct (isspace c) eqn:Hc.
  - intros (_ & _ & Hs). by eapply IH.
  - intros Hs. simpl. by rewrite Hc.
Qed.

Lemma rstrip_spaced b s : spaced b s → spaced b (rstrip s).
Proof.
  intros Hs. destruct (rstrip_decompose s) as (ws & _ & Heq).
  rewrite Heq in Hs. by eapply spaced_app_inv.
Qed.

Lemma segments_spaced s :
  spaced false s → Forall (spaced false) (segments s).
Proof.
  intros Hs. unfold segments. apply Forall_fmap, Forall_forall.
  intros part Hpart. apply list_elem_of_filter in Hpart as [_ Hpart].
  pose proof (re_split_from_spaced [] s Hs) as Hall.
  rewrite Forall_forall in Hall. simpl. unfold strip.
  eapply rstrip_spaced, lstrip_spaced. by apply Hall.
Qed.

Lemma spaced_app b x y :
  x ≠ [] → rtrimmed x → spaced b x → spaced false y → spaced b (x ++ y).
Proof.
  intros Hne Hr Hx Hy. revert b Hx.
  induction x as [|c x IH]; intros b Hx; [done|].
  destruct x as [|c' x].
  - simpl in *. by rewrite Hr.
  - rewrite <-app_comm_cons.
    change (spaced b (c :: c' :: x)) with
      (if isspace c then c = 32%N ∧ b = false ∧ spaced true (c' :: x)
       else spaced false (c' :: x)) in Hx.
    change (spaced b (c :: (c' :: x) ++ y)) with
      (if isspace c
       then c = 32%N ∧ b = false ∧ spaced true ((c' :: x) ++ y)
       else spaced false ((c' :: x) ++ y)).
    destruct (isspace c).
    + destruct Hx as (-> & -> & Hx). split_and!; [done|done|].
      by apply IH.
    + by apply IH.
Qed.

Lemma spaced_after_space y :
  y ≠ [] → ltrimmed y → spaced false y → spaced true y.
Proof. destruct y as [|c y]; [done|]. simpl. by intros _ ->. Qed.

(** Comma-space joins of trimmed, single-spaced strings are
    single-spaced. *)
Lemma join_comma_spaced g :
  Forall (λ x, (x ≠ [] ∧ ltrimmed x ∧ rtrimmed x) ∧ spaced false x) g →
  spaced false (join (py ", ") g).
Proof.
  induction 1 as [|x g ((Hne & Hl & Hr) & Hx) Hg IH]; [done|].
  destruct g as [|y g]; [by rewrite join_singleton|].
  rewrite join_cons. apply spaced_app; [done..|].
  apply Forall_cons in Hg as [((Hyne & Hyl & _) & _) _].
  change (py ", " ++ join (py ", ") (y :: g))
    with (44%N :: 32%N :: join (py ", ") (y :: g)).
  cbn [spaced]. change (isspace 44) with false. change (isspace 32) with true.
  cbv iota. split_and!; [done|done|].
  apply spaced_after_space; [| |done].
  - destruct g; [by rewrite join_singleton|].
    rewrite join_cons. by destruct y.
  - destruct g; [by rewrite join_singleton|].
    rewrite join_cons. by apply ltrimmed_app.
Qed.

Lemma normalize_fixed t :
  ltrimmed t → rtrimmed t → spaced false t → normalize t = t.
Proof.
  intros Hl Hr Hs. rewrite normalize_refines. unfold normalize_spec.
  by rewrite strip_tidy, collapse_runs_spaced.
Qed.

Lemma re_split_from_run cur x s :
  Forall (λ c, is_delim c = false) x →
  re_split_from cur (x ++ s) = re_split_from (cur ++ x) s.
Proof.
  revert cur. induction x as [|c x IH]; intros cur Hx.
  - by rewrite app_nil_r.
  - apply Forall_cons in Hx as [Hc Hx]. simpl. rewrite Hc.
    rewrite IH by done. by rewrite <-app_assoc.
Qed.

Lemma re_split_from_join cur x (xs : list str) :
  Forall (Forall (λ c, is_delim c = false)) (x :: xs) →
  re_split_from cur (join (py ", ") (x :: xs))
  = (cur ++ x) :: ((λ y, py " " ++ y) <$> xs).
Proof.
  revert cur x. induction xs as [|y xs IH]; intros cur x Hxs.
  - apply Forall_cons in Hxs as [Hx _]. rewrite join_singleton.
    rewrite <-(app_nil_r x) at 1. by rewrite re_split_from_run.
  - apply Forall_cons in Hxs as [Hx Hxs].
    rewrite join_cons, re_split_from_run by done.
    change (re_split_from (cur ++ x) (py ", " ++ join (py ", ") (y :: xs)))
      with ((cur ++ x)
            :: re_split_from (py " ") (join (py ", ") (y :: xs))).
    by rewrite IH.
Qed.

Lemma strip_after_space y : strip (py " " ++ y) = strip y.
Proof. reflexivity. Qed.

(** The segments of a comma-space join of tidy, delimiter-free strings
    are these strings. *)
Lemma segments_join g :
  Forall (λ x, x ≠ [] ∧ ltrimmed x ∧ rtrimmed x) g →
  Forall (Forall (λ c, is_delim c = false)) g →
  segments (join (py ", ") g) = g.
Proof.
  intros Htidy Hfree. destruct g as [|x xs]; [done|].
  unfold segments, re_split. rewrite re_split_from_join by done.
  rewrite app_nil_l.
  assert (Hstrip : ∀ y, y ∈ x :: xs → strip y = y).
  { intros y Hy. rewrite Forall_forall in Htidy.
    destruct (Htidy y Hy) as (_ & Hl & Hr). by apply strip_tidy. }
  assert (Hne : ∀ y, y ∈ x :: xs → y ≠ []).
  { intros y Hy. rewrite Forall_forall in Htidy. by apply (Htidy y Hy). }
  rewrite filter_cons_True
    by (apply truthy_true; rewrite Hstrip by set_solver;
        apply Hne; set_solver).
  rewrite fmap_cons, Hstrip by set_solver. f_equal.
  assert (Hxs : ∀ y, y ∈ xs → strip y = y ∧ y ≠ [])
    by (intros y Hy; split; [apply Hstrip|apply Hne]; set_solver).
  clear -Hxs. induction xs as [|y xs IH]; [done|].
  destruct (Hxs y) as [Hy Hyne]; [apply list_elem_of_here|].
  rewrite fmap_cons, filter_cons_True
    by (apply truthy_true; by rewrite strip_after_space, Hy).
  rewrite fmap_cons, strip_after_space, Hy. f_equal.
  apply IH. intros z Hz. by apply Hxs, list_elem_of_further.
Qed.

End RoundTrip.

(** X11. With three or more segments, the lines can be sent back in: joining
    the non-empty lines with a comma and a space gives an address that is
    split into the same three lines. *)
Theorem segment_lines_round_trip (s : str) :
  3 ≤ length (segments (normalize s)) →
  ∃ l1 l2 l3 : str,
    split_address_equally s = Ok (line_dict l1 l2 l3)
    ∧ split_address_equally
        (join (py ", ") (filter (λ l, l ≠ []) [l1; l2; l3]))
      = Ok (line_dict l1 l2 l3).
Proof.
  intros Hseg.
  destruct (split_address_equally_shaped s) as (l1 & l2 & l3 & Hrun & Hshape).
  unfold by_segments in Hshape. rewrite bool_decide_true in Hshape by done.
  exists l1, l2, l3. split; [done|].
  rewrite (shaped_join _ _ _ _ _ (segments_nonempty _) Hshape).
  set (segs := segments (normalize s)) in *.
  assert (Htidy : Forall (λ x, x ≠ [] ∧ ltrimmed x ∧ rtrimmed x) segs)
    by apply segments_tidy.
  assert (Hspaced : Forall (spaced false) segs)
    by apply segments_spaced, spaced_normalize.
  assert (Hfree : Forall (Forall (λ c, is_delim c = false)) segs)
    by apply segments_delim_free.
  assert (Hnorm : normalize (join (py ", ") segs) = join (py ", ") segs).
  { destruct (join_tidy (py ", ") segs Htidy) as (_ & Hl & Hr).
    apply normalize_fixed; [done|done|].
    apply join_comma_spaced. by apply Forall_and. }
  assert (Hsegs : segments (normalize (join (py ", ") segs)) = segs)
    by (rewrite Hnorm; by apply segments_join).
  rewrite segment_path_run by (by rewrite Hsegs).
  rewrite Hsegs, <-Hrun. symmetry. by apply segment_path_run.
Qed.

Lemma segment_lines_round_trip_witness :
  ∃ l1 l2 l3 : str,
    split_address_equally
      (py "Plot No. 45;Sector 12 ,  Near City Mall, Gurgaon")
    = Ok (line_dict l1 l2 l3)
    ∧ split_address_equally
        (join (py ", ") (filter (λ l, l ≠ []) [l1; l2; l3]))
      = Ok (line_dict l1 l2 l3).
Proof.
  apply (segment_lines_round_trip
           (py "Plot No. 45;Sector 12 ,  Near City Mall, Gurgaon")).
  vm_compute. lia.
Defined.
